(** * Smart water quality monitor: classification, quality index, history
      and alert log of [app.py]

    The dashboard script draws one reading (pH, turbidity, TDS) per run,
    classifies it, computes the water quality index, keeps the last ten
    readings and logs unsafe readings.  The rendering calls are left out;
    the session state and the arithmetic are embedded as they are written.

    Python's [float] is IEEE-754 binary64, so pH and turbidity are Rocq's
    primitive [float]s (same format, round to nearest even), and the TDS, a
    Python [int], is a [Z].  The comparisons and the arithmetic of the
    script are the primitive ones; their properties are proved from the
    specification of the primitives in [SpecFloat] and [FloatAxioms]. *)

From Stdlib Require Import ZArith Zpower List String Bool Lia Floats.
From Stdlib Require QArith Qabs Qround.
Import ListNotations.

Local Open Scope string_scope.
Local Open Scope list_scope.
Local Open Scope Z_scope.

(** ** Python's numeric operations *)

(** A Python [int] as an unrounded binary number [m * 2^0]. *)
Definition Z2SF (z : Z) : spec_float :=
  match z with
  | Z0 => S754_zero false
  | Zpos p => S754_finite false p 0
  | Zneg p => S754_finite true p 0
  end.

(** [a / b] on two [int]s: the correctly rounded quotient as a [float].
    Python raises [ZeroDivisionError] when [b] is 0 and [OverflowError] when
    the quotient is too large for a float; both are [None] here. *)
Definition int_truediv (a b : Z) : option float :=
  match SFdiv prec emax (Z2SF a) (Z2SF b) with
  | S754_nan | S754_infinity _ => None
  | q => Some (SF2Prim q)
  end.

(** [int(x)] on a [float]: truncation toward zero.  Python raises
    [ValueError] on NaN and [OverflowError] on an infinity ([None] here). *)
Definition int_of_float (x : float) : option Z :=
  match Prim2SF x with
  | S754_zero _ => Some 0
  | S754_finite s m e => Some (cond_Zopp s (Z.shiftl (Zpos m) e))
  | S754_infinity _ | S754_nan => None
  end.

(** [l[-n:]] for a positive [n]: the last [n] elements, the whole list when
    it is shorter. *)
Definition last_n {A : Type} (n : nat) (l : list A) : list A :=
  skipn (List.length l - n) l.

(** ** Data model *)

Record Reading := mkReading {
  ph : float;
  turbidity : float;
  tds : Z
}.

(** One entry of [alert_log]: the dict built in the alert tab. *)
Record AlertRecord := mkAlert {
  Time : string;
  Location : string;
  pH : float;
  Turbidity : float;
  TDS : Z
}.

(** [st.session_state]: the three histories and the alert log. *)
Record SessionState := mkState {
  ph_history : list float;
  turb_history : list float;
  tds_history : list Z;
  alert_log : list AlertRecord
}.

(** The state created on the first run of a session. *)
Definition initial_state : SessionState := mkState [] [] [] [].

(** ** Quality logic *)

Definition classify (ph turb : float) (tds : Z) : string :=
  if (6.5 <=? ph)%float && (ph <=? 8.5)%float && (turb <? 3)%float
     && (tds <=? 600)
  then "Safe"
  else if (turb <=? 5)%float && (tds <=? 900)
  then "Moderate"
  else "Unsafe".

(** The float under [int(...)] in the index. *)
Definition wqi_raw (ph turbidity : float) (tds : Z) : option float :=
  match int_truediv tds 50 with
  | Some q => Some (100 - (abs (7 - ph) * 10 + turbidity * 8 + q))%float
  | None => None
  end.

(** [wqi = max(0, min(100, int(100 - (abs(7 - ph) * 10 + turbidity * 8 +
    (tds / 50)))))]. *)
Definition wqi (ph turbidity : float) (tds : Z) : option Z :=
  match wqi_raw ph turbidity tds with
  | Some raw =>
      match int_of_float raw with
      | Some n => Some (Z.max 0 (Z.min 100 n))
      | None => None
      end
  | None => None
  end.

(** ** History and alert log *)

(** Lines 70 to 76: append the reading to the three histories, then keep the
    last ten of each. *)
Definition append_reading (st : SessionState) (r : Reading) : SessionState :=
  mkState (last_n 10 (ph_history st ++ [ph r]))
          (last_n 10 (turb_history st ++ [turbidity r]))
          (last_n 10 (tds_history st ++ [tds r]))
          (alert_log st).

(** Lines 149 to 156: the guarded append to the alert log.  [now] is the
    text of [datetime.now().strftime("%H:%M:%S")]. *)
Definition maybe_log_alert (log : list AlertRecord) (status : string)
    (r : Reading) (location now : string) : list AlertRecord :=
  if String.eqb status "Unsafe"
  then log ++ [mkAlert now location (ph r) (turbidity r) (tds r)]
  else log.

(** One run of the script, from the sensor values to the alert tab.  When
    [int] raises, the run stops after the histories were stored. *)
Definition run (st : SessionState) (r : Reading) (location now : string)
    : SessionState * option (string * Z) :=
  let st1 := append_reading st r in
  let status := classify (ph r) (turbidity r) (tds r) in
  match wqi (ph r) (turbidity r) (tds r) with
  | None => (st1, None)
  | Some w =>
      (mkState (ph_history st1) (turb_history st1) (tds_history st1)
               (maybe_log_alert (alert_log st1) status r location now),
       Some (status, w))
  end.

(** ** The specification's wording *)


(** The greatest integer below a float, undefined on NaN and infinities. *)
Definition floor_of_float (x : float) : option Z :=
  match Prim2SF x with
  | S754_zero _ => Some 0
  | S754_finite s m e => Some (Z.shiftl (cond_Zopp s (Zpos m)) e)
  | S754_infinity _ | S754_nan => None
  end.



(** The same formula in exact arithmetic, on the rational numbers that the
    binary64 values of the reading are. *)
Module Exact.
Import QArith Qabs Qround.




End Exact.

(** The bands of the decision policy, on the comparisons the code makes. *)
Definition safe_band (ph turb : float) (tds : Z) : Prop :=
  (6.5 <=? ph)%float = true /\ (ph <=? 8.5)%float = true /\
  (turb <? 3)%float = true /\ tds <= 600.

Definition moderate_band (turb : float) (tds : Z) : Prop :=
  (turb <=? 5)%float = true /\ tds <= 900.

(** [kept] is [l] truncated to its last [n] elements: the oldest elements
    are the ones dropped. *)
Definition keeps_last {A : Type} (n : nat) (l kept : list A) : Prop :=
  exists old, l = old ++ kept /\
              List.length kept = Nat.min n (List.length l).

(** ** Rounding to nearest even, on integers

    A finite binary64 number is an integer multiple of [2^emin], its key;
    the operations of the script round an exact rational to the nearest
    key.  The definitions below state that rounding on integers; the
    lemmas relate them to the algorithms of [SpecFloat]. *)

(** Round-half-even quotient of [a] by a positive [b]. *)
Definition rne (a b : Z) : Z :=
  match 2 * (a mod b) ?= b with
  | Lt => a / b
  | Eq => if Z.even (a / b) then a / b else a / b + 1
  | Gt => a / b + 1
  end.

(** Number of binary digits of a natural number. *)
Definition Zdigits (z : Z) : Z := if z =? 0 then 0 else Z.log2 z + 1.

(** The key of +infinity: the first power of two above every finite number,
    in units of [2^emin]. *)
Definition key_inf (prec emax : Z) : Z :=
  2 ^ (emax - SpecFloat.emin prec emax).

(** Rounding to nearest, ties to even, of the rational [a / b >= 0] counted
    in units of [2^emin]; overflow gives [key_inf]. *)
Definition rnk (prec emax a b : Z) : Z :=
  let sh := Z.max (Zdigits (a / b) - prec) 0 in
  Z.min (rne a (b * 2 ^ sh) * 2 ^ sh) (key_inf prec emax).

(** The same for a rational of either sign: rounding is symmetric. *)
Definition rnkz (prec emax a b : Z) : Z :=
  if a <? 0 then - rnk prec emax (- a) b else rnk prec emax a b.

(** The position of a number on the line of multiples of [2^emin]. *)
Definition key (prec emax : Z) (x : spec_float) : Z :=
  match x with
  | S754_zero _ => 0
  | S754_nan => 0
  | S754_infinity s => cond_Zopp s (key_inf prec emax)
  | S754_finite s m e =>
      cond_Zopp s (Z.pos m * 2 ^ (e - SpecFloat.emin prec emax))
  end.

(** Where the fraction [r / b] lies in the unit interval. *)
Definition loc_frac (r b : Z) : location :=
  if r =? 0 then loc_Exact else loc_Inexact (2 * r ?= b).

(** [mrs] is the rational [a / b]: its mantissa is the floor and its two
    bits place the fraction. *)
Definition shr_rep (mrs : shr_record) (a b : Z) : Prop :=
  shr_m mrs = a / b /\ loc_of_shr_record mrs = loc_frac (a mod b) b.

(** The last step of [binary_round_aux]: zero, a finite number or an
    overflow to infinity. *)
Definition finish (prec emax : Z) (s : bool) (m e : Z) : spec_float :=
  match m with
  | Z0 => S754_zero s
  | Z.pos p =>
      if e <=? emax - prec then S754_finite s p e else S754_infinity s
  | Z.neg _ => S754_nan
  end.

(** Zero or a finite number: neither an infinity nor a NaN. *)
Definition is_fin (x : spec_float) : bool :=
  match x with
  | S754_zero _ | S754_finite _ _ _ => true
  | S754_infinity _ | S754_nan => false
  end.

(** Truncation toward zero of a finite float. *)
Definition SFtrunc (x : spec_float) : Z :=
  match x with
  | S754_finite s m e => cond_Zopp s (Z.shiftl (Z.pos m) e)
  | _ => 0
  end.

(** For binary64: the key of a float, which is the float counted in units
    of [2^-1074]; the key of 1.0; the finite floats; and the rounding of the
    rational [a / b]. *)
Definition fkey (x : float) : Z := key prec emax (Prim2SF x).
Definition unit64 : Z := 2 ^ (- SpecFloat.emin prec emax).
Definition finite (x : float) : bool := is_fin (Prim2SF x).
Definition R64 (a b : Z) : Z := rnkz prec emax a b.

(** The key of the float under [int(...)], from the key [a] of
    [abs(7 - ph)], the key [kt] of the turbidity and the TDS [d]: every
    operation rounds its exact result. *)
Definition raw_key (a kt d : Z) : Z :=
  R64 (fkey 100
       - R64 (R64 (R64 (a * fkey 10) unit64 + R64 (kt * fkey 8) unit64) 1
              + R64 (d * unit64) 50) 1) 1.

(** ** Sample values *)

(** The binary64 number nearest to the decimal 7.2. *)
Definition f7_2 : float := 0x1.ccccccccccccdp+2%float.


(** Fifteen readings numbered by their TDS. *)
Definition sample_readings : list Reading :=
  map (fun k => mkReading 7 1 k)
      [1; 2; 3; 4; 5; 6; 7; 8; 9; 10; 11; 12; 13; 14; 15].

(** The bound on the inputs, [2^1000], and the bounds it gives on the
    intermediate values. *)
Definition big : float := 0x1p+1000%float.
Definition big1 : float := 0x1p+1001%float.
Definition big5 : float := 0x1p+1005%float.
Definition big6 : float := 0x1p+1006%float.
Definition big7 : float := 0x1p+1007%float.
Definition big8 : float := 0x1p+1008%float.

(** ** Sensor values, status card, alert tab and the whole script *)

(** [random.uniform(a, b)] is [a + (b - a) * random()]; [u] is the draw of
    [random()], a float in [0, 1). *)
Definition py_uniform (a b u : float) : float := (a + (b - a) * u)%float.

(** A draw of [random()]. *)
Definition unit_draw (u : float) : Prop :=
  (0 <=? u)%float = true /\ (u <? 1)%float = true.

(** Half-even rounding of a quotient of either sign. *)
Definition rnez (a b : Z) : Z := if a <? 0 then - rne (- a) b else rne a b.

(** [round(x, 2)] on a float: the exact value of [x] is rounded to two
    decimals, ties to even, and the decimal is converted back to the nearest
    float; zeros, infinities and NaN are returned as they are. *)
Definition py_round2 (x : float) : float :=
  match Prim2SF x with
  | S754_finite s m e =>
      let n := rne (Z.pos m * 2 ^ (e - SpecFloat.emin prec emax) * 100)
                   unit64 in
      SF2Prim (SFdiv prec emax
                 (match n with
                  | Z.pos p => S754_finite s p 0
                  | _ => S754_zero s
                  end)
                 (Z2SF 100))
  | _ => x
  end.

(** [round(x, 2)] on keys. *)
Definition round2_key (k : Z) : Z :=
  R64 (rnez (k * 100) unit64 * unit64) 100.

(** The binary64 number nearest to the decimal 8.8. *)
Definition f8_8 : float := 0x1.199999999999ap+3%float.


(** The sidebar controls read by the sensor section: the two mode switches
    and the three sliders of the demo mode. *)
Record Controls := mkControls {
  demo_mode : bool;
  simulate_spike : bool;
  slider_ph : float;
  slider_turbidity : float;
  slider_tds : Z
}.

(** The random draws of one run: the two results of [random()] behind the
    two [random.uniform] calls and the result of [random.randint]. *)
Record Draws := mkDraws {
  draw_ph : float;
  draw_turbidity : float;
  draw_tds : Z
}.

(** Lines 56 to 67: the sensor values of the run. *)
Definition sensor_values (c : Controls) (d : Draws) : Reading :=
  if demo_mode c then
    mkReading (slider_ph c) (slider_turbidity c) (slider_tds c)
  else if simulate_spike c then
    mkReading (py_round2 (py_uniform 3 5 (draw_ph d)))
              (py_round2 (py_uniform 7 10 (draw_turbidity d)))
              (draw_tds d)
  else
    mkReading (py_round2 (py_uniform 6.5 f8_8 (draw_ph d)))
              (py_round2 (py_uniform 0 6 (draw_turbidity d)))
              (draw_tds d).

(** What the widgets and the random module can return: slider values
    within the slider bounds, [random()] in [0, 1), [randint(900, 1200)] in
    the spike mode and [randint(100, 700)] otherwise. *)
Definition slider_ok (c : Controls) : Prop :=
  (0 <=? slider_ph c)%float = true /\ (slider_ph c <=? 14)%float = true /\
  (0 <=? slider_turbidity c)%float = true /\
  (slider_turbidity c <=? 10)%float = true /\
  0 <= slider_tds c <= 1200.

Definition spike_draws (d : Draws) : Prop :=
  unit_draw (draw_ph d) /\ unit_draw (draw_turbidity d) /\
  900 <= draw_tds d <= 1200.

Definition normal_draws (d : Draws) : Prop :=
  unit_draw (draw_ph d) /\ unit_draw (draw_turbidity d) /\
  100 <= draw_tds d <= 700.

Definition inputs_ok (c : Controls) (d : Draws) : Prop :=
  if demo_mode c then slider_ok c
  else if simulate_spike c then spike_draws d
  else normal_draws d.

(** Lines 109 to 117: the colour and the recommendation of the status
    card. *)
Definition status_card (status : string) : string * string :=
  if String.eqb status "Safe" then
    ("#d4edda", "Safe for drinking and domestic use.")
  else if String.eqb status "Moderate" then
    ("#fff3cd", "Boil water before drinking.")
  else
    ("#f8d7da", "Do NOT consume. Inform authorities.").

(** Lines 158 to 169: the alert tab shows the table of the log, with its
    download button, or the note that nothing was recorded. *)
Inductive AlertTab :=
| AlertTable (rows : list AlertRecord)
| NoAlertsInfo.

Definition alert_tab (log : list AlertRecord) : AlertTab :=
  match log with
  | [] => NoAlertsInfo
  | _ => AlertTable log
  end.

(** What one run displays. *)
Record Page := mkPage {
  page_reading : Reading;
  page_status : string;
  page_wqi : Z;
  page_card : string * string;
  page_alerts : AlertTab
}.

(** The whole script: the session state is created when absent (lines 15
    to 19), the sensor values are read, stored, classified and scored, and
    the tabs are drawn.  When [int] raises there is no page. *)
Definition script (session_state : option SessionState) (c : Controls)
    (d : Draws) (location now : string) : SessionState * option Page :=
  let st := match session_state with
            | Some st => st
            | None => initial_state
            end in
  let r := sensor_values c d in
  match run st r location now with
  | (st', Some (status, w)) =>
      (st', Some (mkPage r status w (status_card status)
                         (alert_tab (alert_log st'))))
  | (st', None) => (st', None)
  end.

(** The state after a sequence of runs, each with its reading, location and
    time. *)
Definition session (st : SessionState)
    (runs : list (Reading * string * string)) : SessionState :=
  fold_left (fun st i => fst (run st (fst (fst i)) (snd (fst i)) (snd i)))
            runs st.

(** The runs that reach the alert tab with an Unsafe status. *)
Definition logged (i : Reading * string * string) : bool :=
  let r := fst (fst i) in
  String.eqb (classify (ph r) (turbidity r) (tds r)) "Unsafe" &&
  match wqi (ph r) (turbidity r) (tds r) with
  | Some _ => true
  | None => false
  end.

Definition alert_of (i : Reading * string * string) : AlertRecord :=
  let r := fst (fst i) in
  mkAlert (snd i) (snd (fst i)) (ph r) (turbidity r) (tds r).

(** The tiers from best to worst. *)
Definition tier_rank (status : string) : nat :=
  if String.eqb status "Safe" then 0
  else if String.eqb status "Moderate" then 1
  else 2.

(** ** The numeric operations on examples

    The values are the ones Python prints for [350 / 50], [1 / 50],
    [(2**53 + 1) / 50], [10**311 / 50], [3 / 0], [int(-3.5)], [int(-0.5)]
    and [int(1e20)]; the floor of the specification differs from [int] below
    zero. *)

Example int_truediv_examples :
  int_truediv 350 50 = Some 7%float /\
  int_truediv 1 50 = Some 0x1.47ae147ae147bp-6%float /\
  int_truediv (2 ^ 53 + 1) 50 = Some 0x1.47ae147ae147cp+47%float /\
  int_truediv (10 ^ 311) 50 = None /\
  int_truediv 3 0 = None.
Proof. repeat split; vm_compute; reflexivity. Qed.

Example int_of_float_examples :
  int_of_float (-3.5) = Some (-3) /\ floor_of_float (-3.5) = Some (-4) /\
  int_of_float (-0.5) = Some 0 /\ floor_of_float (-0.5) = Some (-1) /\
  int_of_float 0x1.5af1d78b58c4p+66 = Some (10 ^ 20) /\
  int_of_float infinity = None /\ int_of_float nan = None.
Proof. repeat split; vm_compute; reflexivity. Qed.

(** ** Order of binary64 numbers

    The comparisons of [spec_float] order numbers by sign, exponent and
    mantissa; the facts used below are proved on that definition and moved
    to the primitive comparisons by their specifications. *)

Ltac sf_order :=
  unfold SFltb, SFleb, SFeqb, SFcompare in *;
  repeat match goal with
  | s : bool |- _ => destruct s
  end;
  try discriminate; try reflexivity;
  repeat match goal with
  | H : context [Z.compare ?a ?b] |- _ => destruct (Z.compare_spec a b)
  | |- context [Z.compare ?a ?b] => destruct (Z.compare_spec a b)
  | H : context [Pos.compare_cont Eq ?a ?b] |- _ =>
      change (Pos.compare_cont Eq a b) with (Pos.compare a b) in *;
      destruct (Pos.compare_spec a b)
  | |- context [Pos.compare_cont Eq ?a ?b] =>
      change (Pos.compare_cont Eq a b) with (Pos.compare a b) in *;
      destruct (Pos.compare_spec a b)
  end;
  simpl in *; try discriminate; try reflexivity; try lia.

Lemma SFltb_trans (x y z : spec_float) :
  SFltb x y = true -> SFltb y z = true -> SFltb x z = true.
Proof. destruct x, y, z; intros Hxy Hyz; sf_order. Qed.

Lemma SFltb_irrefl (x : spec_float) : SFltb x x = false.
Proof. destruct x; sf_order. Qed.

Lemma SFltb_not_leb (x y : spec_float) :
  SFltb x y = true -> SFleb y x = false.
Proof. destruct x, y; intros Hxy; sf_order. Qed.

Lemma SFleb_false_ltb (x y : spec_float) :
  x <> S754_nan -> y <> S754_nan -> SFleb x y = false -> SFltb y x = true.
Proof. destruct x, y; intros Hx Hy Hxy; try congruence; sf_order. Qed.

Lemma SFeqb_finite (x : spec_float) (s : bool) (m : positive) (e : Z) :
  SFeqb x (S754_finite s m e) = true -> x = S754_finite s m e.
Proof.
  destruct x as [sx|sx| |sx mx ex]; intros H; sf_order; subst; reflexivity.
Qed.

Lemma ltb_trans (x y z : float) :
  (x <? y)%float = true -> (y <? z)%float = true -> (x <? z)%float = true.
Proof. rewrite !ltb_spec. apply SFltb_trans. Qed.

Lemma ltb_irrefl (x : float) : (x <? x)%float = false.
Proof. rewrite ltb_spec. apply SFltb_irrefl. Qed.

Lemma ltb_not_leb (x y : float) :
  (x <? y)%float = true -> (y <=? x)%float = false.
Proof. rewrite ltb_spec, leb_spec. apply SFltb_not_leb. Qed.

(** A float is a number when it equals itself ([x == x] is false on NaN
    only). *)
Lemma eqb_refl_not_nan (x : float) :
  (x =? x)%float = true -> Prim2SF x <> S754_nan.
Proof.
  rewrite eqb_spec. intros H E. rewrite E in H. discriminate.
Qed.

Lemma leb_false_ltb (x y : float) :
  (x =? x)%float = true -> (y =? y)%float = true ->
  (x <=? y)%float = false -> (y <? x)%float = true.
Proof.
  intros Hx Hy. rewrite ltb_spec, leb_spec.
  apply SFleb_false_ltb; apply eqb_refl_not_nan; assumption.
Qed.

Lemma eqb_3 (x : float) : (x =? 3)%float = true -> x = 3%float.
Proof.
  rewrite eqb_spec. intros H. apply Prim2SF_inj.
  change (Prim2SF 3) with (S754_finite false 6755399441055744 (-51)) in *.
  apply SFeqb_finite. exact H.
Qed.

(** ** Correctness of the rounding algorithms

    [binary_round_aux], on which [SpecFloat] builds the four operations,
    returns the float whose key is the half-even rounding [rnk] of the exact
    value.  The proofs are for any precision and exponent range. *)

Lemma rne_bounds (a b : Z) : 0 < b -> a / b <= rne a b <= a / b + 1.
Proof.
  intros Hb. unfold rne.
  destruct (2 * (a mod b) ?= b); [destruct (Z.even (a / b))| |]; lia.
Qed.

Lemma div_le_cross (a1 b1 a2 b2 : Z) :
  0 < b1 -> 0 < b2 -> a1 * b2 <= a2 * b1 -> a1 / b1 <= a2 / b2.
Proof.
  intros H1 H2 H.
  apply Z.div_le_lower_bound; [lia|].
  pose proof (Z.mul_div_le a1 b1 H1).
  nia.
Qed.

Lemma rne_mono (a1 b1 a2 b2 : Z) :
  0 < b1 -> 0 < b2 -> a1 * b2 <= a2 * b1 -> rne a1 b1 <= rne a2 b2.
Proof.
  intros H1 H2 H.
  pose proof (div_le_cross a1 b1 a2 b2 H1 H2 H) as Hq.
  destruct (Z.eq_dec (a1 / b1) (a2 / b2)) as [E|N].
  - pose proof (Z.div_mod a1 b1 ltac:(lia)) as D1.
    pose proof (Z.div_mod a2 b2 ltac:(lia)) as D2.
    pose proof (Z.mod_pos_bound a1 b1 H1) as B1.
    pose proof (Z.mod_pos_bound a2 b2 H2) as B2.
    unfold rne. rewrite <- E.
    set (q := a1 / b1) in *. set (r1 := a1 mod b1) in *.
    set (r2 := a2 mod b2) in *.
    assert (Hr : r1 * b2 <= r2 * b1) by nia.
    destruct (Z.compare_spec (2 * r1) b1), (Z.compare_spec (2 * r2) b2);
      destruct (Z.even q); try lia; nia.
  - pose proof (rne_bounds a1 b1 H1). pose proof (rne_bounds a2 b2 H2). lia.
Qed.

Lemma rne_ext (a1 b1 a2 b2 : Z) :
  0 < b1 -> 0 < b2 -> a1 * b2 = a2 * b1 -> rne a1 b1 = rne a2 b2.
Proof.
  intros H1 H2 H. apply Z.le_antisymm; apply rne_mono; lia.
Qed.

Lemma rne_exact (q b : Z) : 0 < b -> rne (q * b) b = q.
Proof.
  intros Hb. unfold rne. rewrite Z.mod_mul, Z.div_mul by lia.
  change (2 * 0) with 0. destruct (Z.compare_spec 0 b); lia.
Qed.

Lemma rne_le_int (a b n : Z) : 0 < b -> a <= n * b -> rne a b <= n.
Proof.
  intros Hb H. pose proof (rne_mono a b (n * b) b Hb Hb) as M.
  rewrite rne_exact in M by lia. apply M. nia.
Qed.

Lemma rne_ge_int (a b n : Z) : 0 < b -> n * b <= a -> n <= rne a b.
Proof.
  intros Hb H. pose proof (rne_mono (n * b) b a b Hb Hb) as M.
  rewrite rne_exact in M by lia. apply M. nia.
Qed.

Lemma Zdigits_0 : Zdigits 0 = 0.
Proof. reflexivity. Qed.

Lemma Zdigits_nonneg z : 0 <= Zdigits z.
Proof.
  unfold Zdigits. destruct (Z.eqb_spec z 0); [lia|].
  pose proof (Z.log2_nonneg z). lia.
Qed.

Lemma Zdigits_bounds z : 0 < z -> 2 ^ (Zdigits z - 1) <= z < 2 ^ Zdigits z.
Proof.
  intros Hz. unfold Zdigits. destruct (Z.eqb_spec z 0); [lia|].
  replace (Z.log2 z + 1 - 1) with (Z.log2 z) by lia.
  replace (Z.log2 z + 1) with (Z.succ (Z.log2 z)) by lia.
  apply Z.log2_spec. exact Hz.
Qed.

Lemma Zdigits_unique z d :
  2 ^ (d - 1) <= z < 2 ^ d -> 0 < z -> Zdigits z = d.
Proof.
  intros H Hz. unfold Zdigits. destruct (Z.eqb_spec z 0); [lia|].
  assert (0 < d).
  { destruct (Z.lt_ge_cases 0 d); [assumption|].
    rewrite (Z.pow_neg_r 2 d) in H by now destruct (Z.eq_dec d 0); subst; simpl in *; lia. lia. }
  rewrite (Z.log2_unique z (d - 1)); lia || (replace (Z.succ (d-1)) with d by lia; lia).
Qed.

Lemma Zdigits_le z1 z2 : 0 <= z1 <= z2 -> Zdigits z1 <= Zdigits z2.
Proof.
  intros H. unfold Zdigits.
  destruct (Z.eqb_spec z1 0), (Z.eqb_spec z2 0); try lia.
  - pose proof (Z.log2_nonneg z2). lia.
  - pose proof (Z.log2_le_mono z1 z2). lia.
Qed.

Lemma digits2_pos_log2 (p : positive) :
  Z.pos (digits2_pos p) = Zdigits (Z.pos p).
Proof.
  unfold Zdigits. simpl (Z.pos p =? 0).  cbv iota.
  induction p as [p IH|p IH|]; simpl digits2_pos.
  - rewrite Pos2Z.inj_succ, IH.
    change (Z.pos p~1) with (2 * Z.pos p + 1).
    rewrite Z.log2_succ_double by lia. lia.
  - rewrite Pos2Z.inj_succ, IH.
    change (Z.pos p~0) with (2 * Z.pos p).
    rewrite Z.log2_double by lia. lia.
  - reflexivity.
Qed.

Section Rounding.

Variables prec emax : Z.
Hypothesis Hprec : 1 < prec.
Hypothesis Hemax : prec < emax.

Local Abbreviation emin := (SpecFloat.emin prec emax).
Local Abbreviation fexp := (SpecFloat.fexp prec emax).
Local Abbreviation RN := (rnk prec emax).
Local Abbreviation RNZ := (rnkz prec emax).
Local Abbreviation K := (key prec emax).
Local Abbreviation OMEGA := (key_inf prec emax).

Lemma pow2_pos (n : Z) : 0 <= n -> 0 < 2 ^ n.
Proof. intros H. apply Z.pow_pos_nonneg; lia. Qed.

Lemma pow2_le (n m : Z) : 0 <= n <= m -> 2 ^ n <= 2 ^ m.
Proof. intros H. apply Z.pow_le_mono_r; lia. Qed.

Lemma rnk_shift_le (a1 b1 a2 b2 : Z) :
  0 <= a1 -> 0 < b1 -> 0 < b2 -> a1 * b2 <= a2 * b1 ->
  Z.max (Zdigits (a1 / b1) - prec) 0 <= Z.max (Zdigits (a2 / b2) - prec) 0.
Proof.
  intros Ha H1 H2 H.
  pose proof (div_le_cross a1 b1 a2 b2 H1 H2 H).
  pose proof (Z.div_pos a1 b1 Ha H1).
  pose proof (Zdigits_le (a1 / b1) (a2 / b2)). lia.
Qed.

Lemma rnk_mono (a1 b1 a2 b2 : Z) :
  0 <= a1 -> 0 < b1 -> 0 < b2 -> a1 * b2 <= a2 * b1 ->
  RN a1 b1 <= RN a2 b2.
Proof.
  intros Ha H1 H2 H. unfold rnk.
  apply Z.min_le_compat_r.
  pose proof (rnk_shift_le a1 b1 a2 b2 Ha H1 H2 H) as Hsh.
  pose proof (div_le_cross a1 b1 a2 b2 H1 H2 H) as HF.
  pose proof (Z.div_pos a1 b1 Ha H1) as HF1.
  set (F1 := a1 / b1) in *. set (F2 := a2 / b2) in *.
  set (sh1 := Z.max (Zdigits F1 - prec) 0) in *.
  set (sh2 := Z.max (Zdigits F2 - prec) 0) in *.
  assert (P1 : 0 < 2 ^ sh1) by (apply pow2_pos; lia).
  assert (P2 : 0 < 2 ^ sh2) by (apply pow2_pos; lia).
  destruct (Z.eq_dec sh1 sh2) as [E|N].
  - rewrite <- E. apply Z.mul_le_mono_nonneg_r; [lia|].
    apply rne_mono; nia.
  - assert (Hlt : sh1 + 1 <= sh2) by lia.
    assert (Hd2 : Zdigits F2 = prec + sh2) by lia.
    assert (HF2 : 0 < F2).
    { destruct (Z.eq_dec F2 0) as [Z0|]; [|lia].
      rewrite Z0, Zdigits_0 in Hd2. lia. }
    pose proof (Zdigits_bounds F2 HF2) as B2. rewrite Hd2 in B2.
    assert (M2 : 2 ^ (prec - 1) <= rne a2 (b2 * 2 ^ sh2)).
    { apply rne_ge_int; [nia|].
      pose proof (Z.mul_div_le a2 b2 H2). fold F2 in H0.
      replace (prec + sh2 - 1) with (prec - 1 + sh2) in B2 by lia.
      rewrite Z.pow_add_r in B2 by lia. nia. }
    assert (M1 : rne a1 (b1 * 2 ^ sh1) <= 2 ^ prec).
    { apply rne_le_int; [nia|].
      assert (F1 < 2 ^ (prec + sh1)).
      { destruct (Z.eq_dec F1 0) as [Z0|NZ].
        - rewrite Z0. apply pow2_pos. lia.
        - pose proof (Zdigits_bounds F1 ltac:(lia)).
          assert (2 ^ Zdigits F1 <= 2 ^ (prec + sh1)).
          { apply pow2_le. pose proof (Zdigits_nonneg F1). lia. }
          lia. }
      rewrite Z.pow_add_r in H0 by lia.
      pose proof (Z.mod_pos_bound a1 b1 H1).
      pose proof (Z.div_mod a1 b1 ltac:(lia)). fold F1 in H4.
      nia. }
    assert (2 ^ prec * 2 ^ sh1 <= 2 ^ (prec - 1) * 2 ^ sh2).
    { rewrite <- !Z.pow_add_r by lia. apply pow2_le. lia. }
    nia.
Qed.

Lemma rnk_ext (a1 b1 a2 b2 : Z) :
  0 <= a1 -> 0 < b1 -> 0 < b2 -> a1 * b2 = a2 * b1 -> RN a1 b1 = RN a2 b2.
Proof.
  intros Ha H1 H2 H. assert (0 <= a2) by nia.
  apply Z.le_antisymm; apply rnk_mono; lia.
Qed.

Lemma key_inf_pos : 0 < OMEGA.
Proof. unfold key_inf, SpecFloat.emin. apply pow2_pos. lia. Qed.

Lemma rnk_range (a b : Z) : 0 <= a -> 0 < b -> 0 <= RN a b <= OMEGA.
Proof.
  intros Ha Hb. unfold rnk. split; [|apply Z.le_min_r].
  pose proof key_inf_pos.
  set (sh := Z.max _ 0).
  assert (0 < 2 ^ sh) by (apply pow2_pos; lia).
  assert (0 <= rne a (b * 2 ^ sh)).
  { apply (rne_ge_int a (b * 2 ^ sh) 0); nia. }
  apply Z.min_glb; nia.
Qed.

Lemma rnk_0 (b : Z) : 0 < b -> RN 0 b = 0.
Proof.
  intros Hb. unfold rnk. rewrite Z.div_0_l by lia. rewrite Zdigits_0.
  rewrite Z.max_r by lia. rewrite Z.pow_0_r, !Z.mul_1_r.
  pose proof (rne_exact 0 b Hb) as E. simpl in E. rewrite E.
  pose proof key_inf_pos. lia.
Qed.

Lemma rnkz_mono (a1 b1 a2 b2 : Z) :
  0 < b1 -> 0 < b2 -> a1 * b2 <= a2 * b1 -> RNZ a1 b1 <= RNZ a2 b2.
Proof.
  intros H1 H2 H. unfold rnkz.
  destruct (Z.ltb_spec a1 0), (Z.ltb_spec a2 0).
  - apply Z.opp_le_mono. rewrite !Z.opp_involutive.
    apply rnk_mono; lia.
  - pose proof (rnk_range (- a1) b1). pose proof (rnk_range a2 b2). lia.
  - nia.
  - apply rnk_mono; lia.
Qed.

Lemma rnkz_opp (a b : Z) : 0 < b -> RNZ (- a) b = - RNZ a b.
Proof.
  intros Hb. unfold rnkz.
  destruct (Z.ltb_spec (- a) 0), (Z.ltb_spec a 0); try lia.
  - rewrite Z.opp_involutive. lia.
  - assert (a = 0) by lia. subst a. simpl. rewrite rnk_0; lia.
Qed.

(** *** The shift-right records of [SpecFloat] as rationals *)

Lemma new_location_frac (b r : Z) :
  0 < b -> 0 <= r < b -> new_location b r = loc_frac r b.
Proof.
  intros Hb Hr. unfold new_location, new_location_even, new_location_odd, loc_frac.
  destruct (Z.even b) eqn:Ev; [reflexivity|].
  destruct (Z.eqb_spec r 0); [reflexivity|]. f_equal.
  assert (Hodd : Z.odd b = true) by (rewrite <- Z.negb_even, Ev; reflexivity).
  apply Z.odd_spec in Hodd. destruct Hodd as [k Hk].
  destruct (Z.compare_spec (2 * r + 1) b), (Z.compare_spec (2 * r) b);
    try reflexivity; lia.
Qed.

Lemma round_nearest_even_rne (a b : Z) :
  0 < b -> round_nearest_even (a / b) (loc_frac (a mod b) b) = rne a b.
Proof.
  intros Hb. unfold round_nearest_even, loc_frac, rne.
  destruct (Z.eqb_spec (a mod b) 0) as [E|N].
  - rewrite E. simpl (2 * 0). destruct (Z.compare_spec 0 b); lia.
  - destruct (2 * (a mod b) ?= b); reflexivity.
Qed.

Lemma shr_1_m (m : Z) (r s : bool) :
  0 <= m ->
  shr_1 (Build_shr_record m r s) = Build_shr_record (m / 2) (Z.odd m) (r || s).
Proof.
  intros Hm. destruct m as [|p|p]; [reflexivity| |lia].
  destruct p as [p|p|].
  - simpl shr_1. f_equal.
    change (Z.pos p~1) with (2 * Z.pos p + 1).
    rewrite Z.mul_comm, Z.div_add_l by lia. reflexivity.
  - simpl shr_1. f_equal.
    change (Z.pos p~0) with (2 * Z.pos p).
    rewrite Z.mul_comm, Z.div_mul by lia. reflexivity.
  - reflexivity.
Qed.

Lemma loc_frac_cmp (r b : Z) (c : comparison) :
  0 < r -> (2 * r ?= b) = c -> loc_frac r b = loc_Inexact c.
Proof.
  intros Hr Hc. unfold loc_frac. destruct (Z.eqb_spec r 0); [lia|].
  rewrite Hc. reflexivity.
Qed.

Lemma shr_1_rep (mrs : shr_record) (a b : Z) :
  0 <= a -> 0 < b -> shr_rep mrs a b -> shr_rep (shr_1 mrs) a (b * 2).
Proof.
  intros Ha Hb [Hm Hl]. destruct mrs as [m r s].
  change (shr_m (Build_shr_record m r s)) with m in Hm.
  assert (0 <= m) by (rewrite Hm; apply Z.div_pos; lia).
  rewrite shr_1_m by assumption. unfold shr_rep.
  change (shr_m (Build_shr_record (m / 2) (Z.odd m) (r || s))) with (m / 2).
  rewrite Z.rem_mul_r by lia. rewrite <- Z.div_div by lia. rewrite <- Hm.
  split; [reflexivity|].
  pose proof (Z.mod_pos_bound a b Hb) as Hrho.
  set (rho := a mod b) in *.
  rewrite (Zmod_odd m).
  unfold loc_frac in Hl.
  destruct (Z.eqb_spec rho 0) as [E|N].
  - assert (r = false /\ s = false) as [-> ->]
      by (destruct r, s; try discriminate; auto).
    rewrite E. destruct (Z.odd m).
    + rewrite (loc_frac_cmp (0 + b * 1) (b * 2) Eq); [reflexivity|lia|].
      apply Z.compare_eq_iff. lia.
    + rewrite Z.mul_0_r. reflexivity.
  - assert (r || s = true) as ->
      by (destruct r, s; try discriminate; auto).
    destruct (Z.odd m).
    + rewrite (loc_frac_cmp (rho + b * 1) (b * 2) Gt); [reflexivity|lia|].
      apply Z.compare_gt_iff. lia.
    + rewrite (loc_frac_cmp (rho + b * 0) (b * 2) Lt); [reflexivity|lia|].
      apply Z.compare_lt_iff. lia.
Qed.

Lemma iter_pos_shr_rep (p : positive) (mrs : shr_record) (a b : Z) :
  0 <= a -> 0 < b -> shr_rep mrs a b ->
  shr_rep (iter_pos shr_1 p mrs) a (b * 2 ^ Z.pos p).
Proof.
  intros Ha. revert mrs b.
  induction p as [p IH|p IH|]; intros mrs b Hb H; simpl iter_pos.
  - assert (0 < 2 ^ Z.pos p) by (apply pow2_pos; lia).
    replace (b * 2 ^ Z.pos p~1) with (b * 2 * 2 ^ Z.pos p * 2 ^ Z.pos p).
    + apply IH; [nia|]. apply IH; [lia|]. apply shr_1_rep; assumption.
    + assert (E : 2 ^ Z.pos p~1 = 2 * (2 ^ Z.pos p * 2 ^ Z.pos p)).
      { rewrite <- Z.pow_add_r, <- Z.pow_succ_r by lia. f_equal. lia. }
      rewrite E. ring.
  - assert (0 < 2 ^ Z.pos p) by (apply pow2_pos; lia).
    replace (b * 2 ^ Z.pos p~0) with (b * 2 ^ Z.pos p * 2 ^ Z.pos p).
    + apply IH; [nia|]. apply IH; [lia|]. assumption.
    + assert (E : 2 ^ Z.pos p~0 = 2 ^ Z.pos p * 2 ^ Z.pos p).
      { rewrite <- Z.pow_add_r by lia. f_equal. lia. }
      rewrite E. ring.
  - rewrite Z.pow_1_r. apply shr_1_rep; assumption.
Qed.

Lemma shr_spec (mrs : shr_record) (e n a b : Z) :
  0 <= a -> 0 < b -> shr_rep mrs a b -> 0 <= n ->
  shr_rep (fst (shr mrs e n)) a (b * 2 ^ n) /\ snd (shr mrs e n) = e + n.
Proof.
  intros Ha Hb H Hn. destruct n as [|p|p]; [| |lia].
  - simpl. rewrite Z.mul_1_r, Z.add_0_r. auto.
  - unfold shr, fst, snd. split; [|reflexivity].
    apply iter_pos_shr_rep; assumption.
Qed.

Lemma shr_neg (mrs : shr_record) (e n : Z) : n <= 0 -> shr mrs e n = (mrs, e).
Proof. intros Hn. destruct n as [|p|p]; try reflexivity. lia. Qed.

Lemma loc_of_shr_record_of_loc (m : Z) (l : location) :
  loc_of_shr_record (shr_record_of_loc m l) = l.
Proof. destruct l as [|[| |]]; reflexivity. Qed.

Lemma shr_m_of_loc (m : Z) (l : location) :
  shr_m (shr_record_of_loc m l) = m.
Proof. destruct l as [|[| |]]; reflexivity. Qed.

Lemma Zdigits2_Zdigits (q : Z) : 0 <= q -> Zdigits2 q = Zdigits q.
Proof.
  intros Hq. destruct q as [|p|p]; [reflexivity| |lia].
  apply digits2_pos_log2.
Qed.

Lemma shr_rep_init (q r bd : Z) :
  0 < bd -> 0 <= r < bd ->
  shr_rep (shr_record_of_loc q (loc_frac r bd)) (q * bd + r) bd.
Proof.
  intros Hb Hr. unfold shr_rep.
  rewrite shr_m_of_loc, loc_of_shr_record_of_loc.
  rewrite Z.div_add_l, Z.div_small by lia.
  replace ((q * bd + r) mod bd) with r.
  - split; [lia|reflexivity].
  - rewrite Z.add_comm, Z.mod_add, Z.mod_small by lia. reflexivity.
Qed.

(** The first shift of [binary_round_aux] and the rounding after it compute
    the half-even quotient at the exponent [fexp]. *)
Lemma round_shr_fexp (q e r bd : Z) :
  0 <= q -> 0 < bd -> 0 <= r < bd -> e <= fexp (Zdigits q + e) ->
  let '(mrs, e') := shr_fexp prec emax q e (loc_frac r bd) in
  e' = fexp (Zdigits q + e) /\
  round_nearest_even (shr_m mrs) (loc_of_shr_record mrs) =
    rne (q * bd + r) (bd * 2 ^ (fexp (Zdigits q + e) - e)).
Proof.
  intros Hq Hb Hr Hpre. unfold shr_fexp.
  rewrite Zdigits2_Zdigits by assumption.
  set (n := fexp (Zdigits q + e) - e).
  assert (Ha : 0 <= q * bd + r) by nia.
  destruct (shr_spec (shr_record_of_loc q (loc_frac r bd)) e n
              (q * bd + r) bd Ha Hb (shr_rep_init q r bd Hb Hr))
    as [[Hm Hl] He]; [lia|].
  destruct (shr _ e n) as [mrs e']. simpl in Hm, Hl, He.
  split; [lia|]. rewrite Hm, Hl.
  apply round_nearest_even_rne.
  assert (0 < 2 ^ n) by (apply pow2_pos; lia). nia.
Qed.

Lemma binary_round_aux_finish (s : bool) (mx ex : Z) (lx : location) :
  binary_round_aux prec emax s mx ex lx =
  let '(mrs', e') := shr_fexp prec emax mx ex lx in
  let '(mrs'', e'') :=
    shr_fexp prec emax
      (round_nearest_even (shr_m mrs') (loc_of_shr_record mrs')) e' loc_Exact in
  finish prec emax s (shr_m mrs'') e''.
Proof. reflexivity. Qed.

Lemma Zdigits_le_prec (m : Z) : 0 <= m < 2 ^ prec -> Zdigits m <= prec.
Proof.
  intros H. destruct (Z.eq_dec m 0) as [->|N]; [rewrite Zdigits_0; lia|].
  pose proof (Zdigits_bounds m ltac:(lia)) as B.
  destruct (Z.le_gt_cases (Zdigits m) prec); [assumption|].
  assert (2 ^ prec <= 2 ^ (Zdigits m - 1)) by (apply pow2_le; lia). lia.
Qed.

Lemma Zdigits_pow2 (n : Z) : 0 <= n -> Zdigits (2 ^ n) = n + 1.
Proof.
  intros Hn. apply Zdigits_unique; [|apply pow2_pos; lia].
  replace (n + 1 - 1) with n by lia. split; [lia|].
  apply Z.pow_lt_mono_r; lia.
Qed.

Lemma Zdigits_normal (m : Z) :
  2 ^ (prec - 1) <= m < 2 ^ prec -> Zdigits m = prec.
Proof.
  intros H. apply Zdigits_unique; [exact H|].
  assert (0 < 2 ^ (prec - 1)) by (apply pow2_pos; lia). lia.
Qed.

Lemma normal_of_digits (m : Z) : 0 < m -> Zdigits m = prec -> 2 ^ (prec - 1) <= m.
Proof. intros Hm H. pose proof (Zdigits_bounds m Hm). rewrite H in *. lia. Qed.

Lemma key_inf_split : OMEGA = 2 ^ prec * 2 ^ (emax - prec - emin).
Proof.
  unfold key_inf, SpecFloat.emin. rewrite <- Z.pow_add_r by lia. f_equal. lia.
Qed.

Lemma finish_spec (s : bool) (m e : Z) :
  0 <= m < 2 ^ prec -> emin <= e ->
  (0 < m -> fexp (Zdigits m + e) = e) ->
  SpecFloat.valid_binary prec emax (finish prec emax s m e) = true /\
  finish prec emax s m e <> S754_nan /\
  K (finish prec emax s m e) =
    cond_Zopp s (Z.min (m * 2 ^ (e - emin)) OMEGA).
Proof.
  intros Hm He Hc. pose proof key_inf_pos as HO.
  destruct m as [|p|p]; [| |lia].
  - simpl. rewrite Z.min_l by lia. destruct s; repeat split; discriminate.
  - specialize (Hc ltac:(lia)). unfold finish.
    assert (P : 0 < 2 ^ (e - emin)) by (apply pow2_pos; lia).
    destruct (Z.leb_spec e (emax - prec)) as [L|G].
    + split; [|split; [discriminate|]].
      * unfold SpecFloat.valid_binary, bounded, canonical_mantissa.
        rewrite digits2_pos_log2, Hc, Z.eqb_refl. simpl.
        apply Z.leb_le. exact L.
      * unfold key. f_equal. rewrite Z.min_l; [reflexivity|].
        rewrite key_inf_split.
        assert (2 ^ (e - emin) <= 2 ^ (emax - prec - emin))
          by (apply pow2_le; lia).
        nia.
    + split; [reflexivity|split; [discriminate|]].
      unfold key. f_equal. rewrite Z.min_r; [reflexivity|].
      unfold SpecFloat.fexp in Hc.
      assert (Hd : Zdigits (Z.pos p) = prec) by (unfold SpecFloat.emin in *; lia).
      pose proof (normal_of_digits (Z.pos p) ltac:(lia) Hd).
      assert (OMEGA = 2 ^ (prec - 1) * 2 ^ (emax - prec + 1 - emin)).
      { unfold key_inf, SpecFloat.emin. rewrite <- Z.pow_add_r by lia.
        f_equal. lia. }
      assert (2 ^ (emax - prec + 1 - emin) <= 2 ^ (e - emin)).
      { apply pow2_le. unfold SpecFloat.emin. lia. }
      assert (0 < 2 ^ (prec - 1)) by (apply pow2_pos; lia).
      nia.
Qed.

Lemma norm_spec (M E : Z) :
  0 <= M <= 2 ^ prec -> emin <= E -> (emin < E -> 2 ^ (prec - 1) <= M) ->
  let '(mrs, e) := shr_fexp prec emax M E loc_Exact in
  0 <= shr_m mrs < 2 ^ prec /\ emin <= e /\
  (0 < shr_m mrs -> fexp (Zdigits (shr_m mrs) + e) = e) /\
  shr_m mrs * 2 ^ (e - emin) = M * 2 ^ (E - emin).
Proof.
  intros HM HE Hn. unfold shr_fexp. rewrite Zdigits2_Zdigits by lia.
  assert (Pp : 0 < 2 ^ (prec - 1)) by (apply pow2_pos; lia).
  assert (P2 : 2 ^ prec = 2 * 2 ^ (prec - 1)).
  { rewrite <- Z.pow_succ_r by lia. f_equal. lia. }
  destruct (Z.eq_dec M (2 ^ prec)) as [EM|NM].
  - rewrite EM, Zdigits_pow2 by lia.
    replace (fexp (prec + 1 + E) - E) with 1
      by (unfold SpecFloat.fexp; lia).
    unfold shr, shr_record_of_loc, iter_pos.
    rewrite shr_1_m by lia.
    change (shr_m {| shr_m := 2 ^ prec / 2; shr_r := Z.odd (2 ^ prec);
                     shr_s := false || false |}) with (2 ^ prec / 2).
    replace (2 ^ prec / 2) with (2 ^ (prec - 1))
      by (rewrite P2, Z.mul_comm, Z.div_mul; lia).
    repeat split; try lia.
    + intros _. rewrite Zdigits_pow2 by lia. unfold SpecFloat.fexp. lia.
    + replace (E + 1 - emin) with (Z.succ (E - emin)) by lia.
      rewrite Z.pow_succ_r by lia. lia.
  - assert (HM' : 0 <= M < 2 ^ prec) by lia.
    pose proof (Zdigits_le_prec M HM') as Hd.
    rewrite shr_neg by (unfold SpecFloat.fexp; lia).
    change (shr_m (shr_record_of_loc M loc_Exact)) with M.
    repeat split; try lia.
    intros HM0. unfold SpecFloat.fexp.
    destruct (Z.eq_dec E emin) as [->|NE]; [lia|].
    rewrite (Zdigits_normal M); lia.
Qed.

Lemma Zdigits_0_iff (q : Z) : 0 <= q -> Zdigits q = 0 -> q = 0.
Proof.
  intros Hq H. unfold Zdigits in H. destruct (Z.eqb_spec q 0); [assumption|].
  pose proof (Z.log2_nonneg q). lia.
Qed.

Lemma Zdigits_lt_pow (q : Z) : 0 <= q -> q < 2 ^ Zdigits q.
Proof.
  intros Hq. destruct (Z.eq_dec q 0) as [->|N]; [reflexivity|].
  apply Zdigits_bounds. lia.
Qed.

(** The rounded mantissa fits the precision, and is normal above the
    least exponent. *)
Lemma rne_round_bounds (q e r bd : Z) :
  0 <= q -> 0 < bd -> 0 <= r < bd -> e <= fexp (Zdigits q + e) ->
  let M := rne (q * bd + r) (bd * 2 ^ (fexp (Zdigits q + e) - e)) in
  0 <= M <= 2 ^ prec /\ (emin < fexp (Zdigits q + e) -> 2 ^ (prec - 1) <= M).
Proof.
  intros Hq Hb Hr Hpre. cbv zeta.
  set (n := fexp (Zdigits q + e) - e).
  assert (Hn : 0 <= n) by (unfold n; lia).
  assert (Pn : 0 < 2 ^ n) by (apply pow2_pos; lia).
  pose proof (Zdigits_nonneg q) as Hd.
  pose proof (Zdigits_lt_pow q Hq) as Hlt.
  split; [split|].
  - apply (rne_ge_int _ _ 0); nia.
  - apply rne_le_int; [nia|].
    assert (2 ^ Zdigits q <= 2 ^ (prec + n)).
    { apply pow2_le. unfold n, SpecFloat.fexp. lia. }
    rewrite Z.pow_add_r in H by lia. nia.
  - intros Hgt. apply rne_ge_int; [nia|].
    assert (Hdq : Zdigits q = prec + n) by (unfold n, SpecFloat.fexp in *; lia).
    assert (Hq0 : 0 < q).
    { destruct (Z.eq_dec q 0) as [->|]; [rewrite Zdigits_0 in Hdq; lia|lia]. }
    pose proof (Zdigits_bounds q Hq0) as B. rewrite Hdq in B.
    replace (prec + n - 1) with (prec - 1 + n) in B by lia.
    rewrite Z.pow_add_r in B by lia.
    assert (0 < 2 ^ (prec - 1)) by (apply pow2_pos; lia). nia.
Qed.

(** The digits of a scaled quotient. *)
Lemma digits_scaled (a0 bd q u v A B : Z) :
  0 < q -> 0 < bd -> q * bd <= a0 < (q + 1) * bd ->
  0 <= u -> 0 <= v -> 0 < B -> A * (bd * 2 ^ v) = a0 * 2 ^ u * B ->
  (0 < Zdigits q + u - v -> Zdigits (A / B) = Zdigits q + u - v) /\
  (Zdigits q + u - v <= 0 -> A / B = 0).
Proof.
  intros Hq Hb Ha Hu Hv HB HA.
  pose proof (Zdigits_bounds q Hq) as Bq.
  pose proof (Zdigits_nonneg q) as Hd.
  assert (Hd1 : 0 < Zdigits q).
  { destruct (Z.eq_dec (Zdigits q) 0) as [E|]; [|lia].
    apply Zdigits_0_iff in E; lia. }
  set (U := 2 ^ u) in *. set (V := 2 ^ v) in *.
  assert (PU : 0 < U) by (apply pow2_pos; lia).
  assert (PV : 0 < V) by (apply pow2_pos; lia).
  set (P := 2 ^ (Zdigits q - 1)) in *.
  assert (PP : 0 < P) by (apply pow2_pos; lia).
  assert (P2 : 2 ^ Zdigits q = 2 * P).
  { unfold P. rewrite <- Z.pow_succ_r by lia. f_equal. lia. }
  rewrite P2 in Bq.
  assert (PbV : 0 < bd * V) by (apply Z.mul_pos_pos; lia).
  assert (Pa0 : 0 < a0) by nia.
  assert (HA0 : 0 < A).
  { apply (proj1 (Z.mul_pos_cancel_r A (bd * V) PbV)). rewrite HA.
    apply Z.mul_pos_pos; [apply Z.mul_pos_pos|]; lia. }
  assert (Hlo : P * bd <= a0) by nia.
  assert (Hhi : a0 < 2 * P * bd) by nia.
  assert (PUB : 0 < U * B) by (apply Z.mul_pos_pos; lia).
  split.
  - intros Hk. set (k := Zdigits q + u - v) in *.
    set (X := 2 ^ (k - 1)).
    assert (PX : 0 < X) by (apply pow2_pos; lia).
    assert (HX : X * V = P * U).
    { unfold X, V, P, U. rewrite <- !Z.pow_add_r by lia. f_equal. lia. }
    assert (X2 : 2 ^ k = 2 * X).
    { unfold X. rewrite <- Z.pow_succ_r by lia. f_equal. lia. }
    apply Zdigits_unique.
    + fold X. rewrite X2. split.
      * apply Z.div_le_lower_bound; [lia|].
        apply (Z.mul_le_mono_pos_r _ _ (bd * V)); [nia|].
        rewrite HA.
        replace (B * X * (bd * V)) with (B * bd * (X * V)) by ring.
        rewrite HX.
        replace (B * bd * (P * U)) with (P * bd * (U * B)) by ring.
        replace (a0 * U * B) with (a0 * (U * B)) by ring.
        apply Z.mul_le_mono_nonneg_r; lia.
      * apply Z.div_lt_upper_bound; [lia|].
        apply (Z.mul_lt_mono_pos_r (bd * V)); [nia|].
        rewrite HA.
        replace (B * (2 * X) * (bd * V)) with (2 * B * bd * (X * V)) by ring.
        rewrite HX.
        replace (2 * B * bd * (P * U)) with (2 * P * bd * (U * B)) by ring.
        replace (a0 * U * B) with (a0 * (U * B)) by ring.
        apply Z.mul_lt_mono_pos_r; lia.
    + apply Z.div_str_pos. split; [lia|].
      apply (Z.mul_le_mono_pos_r _ _ (bd * V)); [nia|].
      rewrite HA.
      assert (V <= X * V) by nia. rewrite HX in H.
      replace (B * (bd * V)) with (bd * V * B) by ring.
      apply Z.mul_le_mono_nonneg_r; [lia|].
      apply Z.le_trans with (bd * (P * U)).
      * apply Z.mul_le_mono_nonneg_l; lia.
      * replace (bd * (P * U)) with (P * bd * U) by ring.
        apply Z.mul_le_mono_nonneg_r; lia.
  - intros Hk. apply Z.div_small. split; [lia|].
    apply (Z.mul_lt_mono_pos_r (bd * V)); [nia|].
    rewrite HA.
    assert (2 * P * U <= V).
    { rewrite <- P2. unfold U, V. rewrite <- Z.pow_add_r by lia.
      apply pow2_le. lia. }
    replace (B * (bd * V)) with (bd * V * B) by ring.
    apply Z.mul_lt_mono_pos_r; [lia|].
    apply Z.lt_le_trans with (2 * P * bd * U).
    + apply Z.mul_lt_mono_pos_r; lia.
    + replace (2 * P * bd * U) with (bd * (2 * P * U)) by ring.
      apply Z.mul_le_mono_nonneg_l; lia.
Qed.

Lemma rnk_shift (q e r bd u v A B : Z) :
  0 <= q -> 0 < bd -> 0 <= r < bd -> e <= fexp (Zdigits q + e) ->
  0 <= u -> 0 <= v -> u - v = e - emin -> 0 < B ->
  A * (bd * 2 ^ v) = (q * bd + r) * 2 ^ u * B ->
  Z.max (Zdigits (A / B) - prec) 0 = fexp (Zdigits q + e) - emin.
Proof.
  intros Hq Hb Hr Hpre Hu Hv Huv HB HA.
  destruct (Z.eq_dec q 0) as [->|Nq].
  - rewrite Zdigits_0 in *. unfold SpecFloat.fexp in *.
    assert (A / B = 0) as ->.
    { assert (PU : 0 < 2 ^ u) by (apply pow2_pos; lia).
      assert (PV : 0 < 2 ^ v) by (apply pow2_pos; lia).
      assert (2 ^ u <= 2 ^ v) by (apply pow2_le; lia).
      apply Z.div_small. split; [nia|].
      apply (Z.mul_lt_mono_pos_r (bd * 2 ^ v)); [nia|].
      rewrite HA. rewrite Z.mul_0_l, Z.add_0_l.
      apply Z.le_lt_trans with (r * 2 ^ v * B).
      - apply Z.mul_le_mono_nonneg_r; [lia|].
        apply Z.mul_le_mono_nonneg_l; lia.
      - replace (B * (bd * 2 ^ v)) with (bd * (2 ^ v * B)) by ring.
        rewrite <- Z.mul_assoc.
        apply Z.mul_lt_mono_pos_r; [|lia].
        apply Z.mul_pos_pos; lia. }
    rewrite Zdigits_0. lia.
  - destruct (digits_scaled (q * bd + r) bd q u v A B) as [H1 H2];
      try lia; try nia.
    unfold SpecFloat.fexp.
    destruct (Z.lt_ge_cases 0 (Zdigits q + u - v)) as [Hk|Hk].
    + rewrite (H1 Hk). lia.
    + rewrite (H2 Hk), Zdigits_0. lia.
Qed.

(** [binary_round_aux] rounds the rational it is given: [q + r / bd] at
    exponent [e], which is [A / B] in units of [2^emin]. *)
Lemma binary_round_aux_key (s : bool) (q e r bd u v A B : Z) :
  0 <= q -> 0 < bd -> 0 <= r < bd -> e <= fexp (Zdigits q + e) ->
  0 <= u -> 0 <= v -> u - v = e - emin -> 0 < B ->
  A * (bd * 2 ^ v) = (q * bd + r) * 2 ^ u * B ->
  let R := binary_round_aux prec emax s q e (loc_frac r bd) in
  SpecFloat.valid_binary prec emax R = true /\ R <> S754_nan /\
  K R = cond_Zopp s (RN A B).
Proof.
  intros Hq Hb Hr Hpre Hu Hv Huv HB HA. cbv zeta.
  rewrite binary_round_aux_finish.
  pose proof (round_shr_fexp q e r bd Hq Hb Hr Hpre) as H1.
  destruct (shr_fexp prec emax q e (loc_frac r bd)) as [mrs' e'].
  destruct H1 as [He' HM]. rewrite HM, He'.
  destruct (rne_round_bounds q e r bd Hq Hb Hr Hpre) as [HM1 HM2].
  set (E' := fexp (Zdigits q + e)) in *.
  set (M := rne (q * bd + r) (bd * 2 ^ (E' - e))) in *.
  assert (HE' : emin <= E') by (unfold E', SpecFloat.fexp; lia).
  pose proof (norm_spec M E' HM1 HE' HM2) as H2.
  destruct (shr_fexp prec emax M E' loc_Exact) as [mrs'' e''].
  destruct H2 as (Hm'' & He'' & Hcan & Hval).
  destruct (finish_spec s (shr_m mrs'') e'' Hm'' He'' Hcan) as (V1 & V2 & V3).
  split; [exact V1|]. split; [exact V2|].
  rewrite V3, Hval. f_equal. unfold rnk.
  rewrite (rnk_shift q e r bd u v A B) by assumption. fold E'.
  f_equal. f_equal. unfold M.
  assert (PU : 0 < 2 ^ u) by (apply pow2_pos; lia).
  assert (PV : 0 < 2 ^ v) by (apply pow2_pos; lia).
  assert (Pn : 0 < 2 ^ (E' - e)) by (apply pow2_pos; lia).
  assert (Ps : 0 < 2 ^ (E' - emin)) by (apply pow2_pos; lia).
  apply rne_ext; try nia.
  assert (X : 2 ^ (E' - emin) * 2 ^ v = 2 ^ (E' - e) * 2 ^ u).
  { rewrite <- !Z.pow_add_r by lia. f_equal. lia. }
  apply (Z.mul_cancel_r _ _ (2 ^ v)); [lia|].
  replace ((q * bd + r) * (B * 2 ^ (E' - emin)) * 2 ^ v)
    with ((q * bd + r) * B * (2 ^ (E' - emin) * 2 ^ v)) by ring.
  rewrite X.
  replace (A * (bd * 2 ^ (E' - e)) * 2 ^ v)
    with (A * (bd * 2 ^ v) * 2 ^ (E' - e)) by ring.
  rewrite HA. ring.
Qed.

(** *** Rounding of exact binary numbers *)

Lemma iter_xO_pow (m d : positive) :
  Z.pos (Pos.iter xO m d) = Z.pos m * 2 ^ Z.pos d.
Proof.
  change (Pos.iter xO m d) with (shift_pos d m).
  rewrite shift_pos_correct. rewrite Zpower_pos_nat, Zpower_nat_Z.
  rewrite positive_nat_Z. ring.
Qed.

Lemma Zdigits_mul_pow2 (m k : Z) :
  0 < m -> 0 <= k -> Zdigits (m * 2 ^ k) = Zdigits m + k.
Proof.
  intros Hm Hk. pose proof (Zdigits_bounds m Hm) as B.
  pose proof (Zdigits_nonneg m) as Hd.
  assert (Hd1 : 0 < Zdigits m).
  { destruct (Z.eq_dec (Zdigits m) 0) as [E|]; [|lia].
    apply Zdigits_0_iff in E; lia. }
  assert (P : 0 < 2 ^ k) by (apply pow2_pos; lia).
  apply Zdigits_unique; [|nia].
  replace (Zdigits m + k - 1) with (Zdigits m - 1 + k) by lia.
  rewrite !Z.pow_add_r by lia. nia.
Qed.

Lemma shl_align_spec (m : positive) (e e' : Z) :
  let '(mz, ez) := shl_align m e e' in
  ez = Z.min e e' /\ Z.pos mz = Z.pos m * 2 ^ (e - ez).
Proof.
  unfold shl_align. destruct (e' - e) as [|d|d] eqn:E.
  - split; [lia|]. rewrite Z.sub_diag. lia.
  - split; [lia|]. rewrite Z.sub_diag. lia.
  - split; [lia|]. rewrite iter_xO_pow. f_equal. f_equal. lia.
Qed.

Lemma loc_frac_exact : loc_frac 0 1 = loc_Exact.
Proof. reflexivity. Qed.

(** [binary_round] rounds [m * 2^e]. *)
Lemma binary_round_key (s : bool) (m : positive) (e : Z) :
  emin <= e ->
  let R := binary_round prec emax s m e in
  SpecFloat.valid_binary prec emax R = true /\ R <> S754_nan /\
  K R = cond_Zopp s (RN (Z.pos m * 2 ^ (e - emin)) 1).
Proof.
  intros He. cbv zeta. unfold binary_round.
  pose proof (shl_align_spec m e (fexp (Z.pos (digits2_pos m) + e))) as H.
  destruct (shl_align m e _) as [mz ez]. destruct H as [Hez Hmz].
  rewrite digits2_pos_log2 in Hez.
  assert (Hez' : emin <= ez) by (unfold SpecFloat.fexp in Hez; lia).
  rewrite <- loc_frac_exact.
  apply (binary_round_aux_key s (Z.pos mz) ez 0 1 (ez - emin) 0); try lia.
  - rewrite Hmz, Zdigits_mul_pow2 by lia.
    replace (Zdigits (Z.pos m) + (e - ez) + ez) with (Zdigits (Z.pos m) + e)
      by lia.
    lia.
  - rewrite Hmz. rewrite Z.pow_0_r, !Z.mul_1_r, Z.add_0_r.
    rewrite <- !Z.mul_assoc, <- Z.pow_add_r by lia. f_equal. f_equal. lia.
Qed.

(** [binary_normalize] rounds the signed [z * 2^e]. *)
Lemma binary_normalize_key (z e : Z) (sz : bool) :
  emin <= e ->
  let R := binary_normalize prec emax z e sz in
  SpecFloat.valid_binary prec emax R = true /\ R <> S754_nan /\
  K R = RNZ (z * 2 ^ (e - emin)) 1.
Proof.
  intros He. cbv zeta. unfold binary_normalize, rnkz.
  assert (P : 0 < 2 ^ (e - emin)) by (apply pow2_pos; lia).
  destruct z as [|p|p].
  - simpl. rewrite rnk_0 by lia. repeat split; discriminate.
  - destruct (Z.ltb_spec (Z.pos p * 2 ^ (e - emin)) 0); [lia|].
    apply (binary_round_key false p e He).
  - destruct (Z.ltb_spec (Z.neg p * 2 ^ (e - emin)) 0); [|lia].
    replace (- (Z.neg p * 2 ^ (e - emin))) with (Z.pos p * 2 ^ (e - emin))
      by lia.
    apply (binary_round_key true p e He).
Qed.

(** *** Finite numbers and their keys *)

Lemma emin_neg : emin < 0.
Proof. unfold SpecFloat.emin. lia. Qed.

Lemma valid_finite_inv (s : bool) (m : positive) (e : Z) :
  SpecFloat.valid_binary prec emax (S754_finite s m e) = true ->
  emin <= e <= emax - prec /\ fexp (Zdigits (Z.pos m) + e) = e /\
  Z.pos m < 2 ^ prec /\ (emin < e -> 2 ^ (prec - 1) <= Z.pos m).
Proof.
  unfold SpecFloat.valid_binary, bounded, canonical_mantissa.
  rewrite andb_true_iff, Z.eqb_eq, Z.leb_le, digits2_pos_log2.
  intros [Hc Hb].
  pose proof (Zdigits_bounds (Z.pos m) ltac:(lia)) as B.
  assert (Hd : Zdigits (Z.pos m) <= prec) by (unfold SpecFloat.fexp in Hc; lia).
  assert (2 ^ Zdigits (Z.pos m) <= 2 ^ prec).
  { apply pow2_le. pose proof (Zdigits_nonneg (Z.pos m)). lia. }
  repeat split; try lia.
  - unfold SpecFloat.fexp in Hc. lia.
  - intros He. apply normal_of_digits; [lia|].
    unfold SpecFloat.fexp in Hc. lia.
Qed.

Lemma key_finite_bound (s : bool) (m : positive) (e : Z) :
  SpecFloat.valid_binary prec emax (S754_finite s m e) = true ->
  0 < Z.pos m * 2 ^ (e - emin) < OMEGA.
Proof.
  intros Hv. destruct (valid_finite_inv s m e Hv) as (He & Hc & Hm & _).
  assert (P : 0 < 2 ^ (e - emin)) by (apply pow2_pos; lia).
  split; [nia|]. rewrite key_inf_split.
  assert (2 ^ (e - emin) <= 2 ^ (emax - prec - emin)) by (apply pow2_le; lia).
  nia.
Qed.

Lemma rnk_fix (s : bool) (m : positive) (e : Z) :
  SpecFloat.valid_binary prec emax (S754_finite s m e) = true ->
  RN (Z.pos m * 2 ^ (e - emin)) 1 = Z.pos m * 2 ^ (e - emin).
Proof.
  intros Hv. destruct (valid_finite_inv s m e Hv) as (He & Hc & Hm & _).
  pose proof (key_finite_bound s m e Hv) as Hk.
  unfold rnk. rewrite Z.div_1_r, Zdigits_mul_pow2 by lia.
  replace (Z.max (Zdigits (Z.pos m) + (e - emin) - prec) 0) with (e - emin)
    by (unfold SpecFloat.fexp in Hc; lia).
  rewrite Z.mul_1_l, rne_exact by (apply pow2_pos; lia).
  lia.
Qed.

Lemma key_bound (x : spec_float) :
  SpecFloat.valid_binary prec emax x = true -> is_fin x = true ->
  - OMEGA < K x < OMEGA.
Proof.
  intros Hv Hf. pose proof key_inf_pos.
  destruct x as [s|s| |s m e]; try discriminate; unfold key; [lia|].
  pose proof (key_finite_bound s m e Hv). destruct s; cbn [cond_Zopp]; lia.
Qed.

Lemma rnkz_fix (x : spec_float) :
  SpecFloat.valid_binary prec emax x = true -> is_fin x = true ->
  RNZ (K x) 1 = K x.
Proof.
  intros Hv Hf. destruct x as [s|s| |s m e]; try discriminate.
  - simpl. unfold rnkz. simpl. apply rnk_0. lia.
  - pose proof (key_finite_bound s m e Hv) as Hk.
    pose proof (rnk_fix s m e Hv) as Hr.
    unfold rnkz, key. destruct s; cbn [cond_Zopp].
    + destruct (Z.ltb_spec (- (Z.pos m * 2 ^ (e - emin))) 0); [|lia].
      rewrite Z.opp_involutive, Hr. reflexivity.
    + destruct (Z.ltb_spec (Z.pos m * 2 ^ (e - emin)) 0); [lia|]. exact Hr.
Qed.

Lemma fin_of_key (x : spec_float) :
  x <> S754_nan -> - OMEGA < K x < OMEGA -> is_fin x = true.
Proof.
  intros Hn Hk. destruct x as [s|s| |s m e]; try reflexivity; try congruence.
  unfold key in Hk. destruct s; cbn [cond_Zopp] in Hk; lia.
Qed.

Lemma cond_Zopp_mul (s : bool) (a b : Z) :
  cond_Zopp s a * b = cond_Zopp s (a * b).
Proof. destruct s; simpl; lia. Qed.

(** *** The operations on finite numbers round the exact result *)

Lemma SFadd_key (x y : spec_float) :
  SpecFloat.valid_binary prec emax x = true -> is_fin x = true ->
  SpecFloat.valid_binary prec emax y = true -> is_fin y = true ->
  let R := SFadd prec emax x y in
  SpecFloat.valid_binary prec emax R = true /\ R <> S754_nan /\
  K R = RNZ (K x + K y) 1.
Proof.
  intros Vx Fx Vy Fy. cbv zeta.
  destruct x as [sx|sx| |sx mx ex]; try discriminate;
    destruct y as [sy|sy| |sy my ey]; try discriminate.
  - assert (E : RNZ (K (S754_zero sx) + K (S754_zero sy)) 1 = 0).
    { simpl. unfold rnkz. simpl. apply rnk_0. lia. }
    rewrite E. destruct sx, sy; simpl; repeat split; discriminate.
  - simpl SFadd. simpl (K (S754_zero sx)). rewrite Z.add_0_l, rnkz_fix by assumption.
    repeat split; try assumption; discriminate.
  - simpl SFadd. simpl (K (S754_zero sy)). rewrite Z.add_0_r, rnkz_fix by assumption.
    repeat split; try assumption; discriminate.
  - destruct (valid_finite_inv sx mx ex Vx) as (Hex & _).
    destruct (valid_finite_inv sy my ey Vy) as (Hey & _).
    unfold SFadd.
    pose proof (shl_align_spec mx ex (Z.min ex ey)) as Ax.
    pose proof (shl_align_spec my ey (Z.min ex ey)) as Ay.
    destruct (shl_align mx ex (Z.min ex ey)) as [mx' ex'].
    destruct (shl_align my ey (Z.min ex ey)) as [my' ey'].
    destruct Ax as [Ex Mx]. destruct Ay as [Ey My]. simpl fst.
    pose proof (binary_normalize_key
                  (cond_Zopp sx (Z.pos mx') + cond_Zopp sy (Z.pos my'))
                  (Z.min ex ey) false ltac:(lia)) as H.
    cbv zeta in H. destruct H as (H1 & H2 & H3).
    split; [exact H1|]. split; [exact H2|]. rewrite H3. f_equal.
    unfold key. rewrite Z.mul_add_distr_r, !cond_Zopp_mul, Mx, My.
    rewrite <- !Z.mul_assoc, <- !Z.pow_add_r by lia.
    f_equal; f_equal; f_equal; f_equal; lia.
Qed.

Lemma SFsub_key (x y : spec_float) :
  SpecFloat.valid_binary prec emax x = true -> is_fin x = true ->
  SpecFloat.valid_binary prec emax y = true -> is_fin y = true ->
  let R := SFsub prec emax x y in
  SpecFloat.valid_binary prec emax R = true /\ R <> S754_nan /\
  K R = RNZ (K x - K y) 1.
Proof.
  intros Vx Fx Vy Fy. cbv zeta.
  destruct x as [sx|sx| |sx mx ex]; try discriminate;
    destruct y as [sy|sy| |sy my ey]; try discriminate.
  - assert (E : RNZ (K (S754_zero sx) - K (S754_zero sy)) 1 = 0).
    { simpl. unfold rnkz. simpl. apply rnk_0. lia. }
    rewrite E. destruct sx, sy; simpl; repeat split; discriminate.
  - simpl SFsub. simpl (K (S754_zero sx)). rewrite Z.sub_0_l, rnkz_opp by lia.
    rewrite rnkz_fix by assumption.
    split; [exact Vy|]. split; [discriminate|].
    unfold key. destruct sy; simpl; lia.
  - simpl SFsub. simpl (K (S754_zero sy)). rewrite Z.sub_0_r, rnkz_fix by assumption.
    repeat split; try assumption; discriminate.
  - destruct (valid_finite_inv sx mx ex Vx) as (Hex & _).
    destruct (valid_finite_inv sy my ey Vy) as (Hey & _).
    unfold SFsub.
    pose proof (shl_align_spec mx ex (Z.min ex ey)) as Ax.
    pose proof (shl_align_spec my ey (Z.min ex ey)) as Ay.
    destruct (shl_align mx ex (Z.min ex ey)) as [mx' ex'].
    destruct (shl_align my ey (Z.min ex ey)) as [my' ey'].
    destruct Ax as [Ex Mx]. destruct Ay as [Ey My]. simpl fst.
    pose proof (binary_normalize_key
                  (cond_Zopp sx (Z.pos mx') - cond_Zopp sy (Z.pos my'))
                  (Z.min ex ey) false ltac:(lia)) as H.
    cbv zeta in H. destruct H as (H1 & H2 & H3).
    split; [exact H1|]. split; [exact H2|]. rewrite H3. f_equal.
    unfold key. rewrite Z.mul_sub_distr_r, !cond_Zopp_mul, Mx, My.
    rewrite <- !Z.mul_assoc, <- !Z.pow_add_r by lia.
    f_equal; f_equal; f_equal; f_equal; lia.
Qed.

Lemma fexp_le (x y : Z) : x <= y -> fexp x <= fexp y.
Proof. unfold SpecFloat.fexp. lia. Qed.

Lemma Zdigits_pos (a : Z) : 0 < a -> 0 < Zdigits a.
Proof.
  intros Ha. pose proof (Zdigits_nonneg a).
  destruct (Z.eq_dec (Zdigits a) 0) as [E|]; [|lia].
  apply Zdigits_0_iff in E; lia.
Qed.

Lemma Zdigits_mul_ge (a b : Z) :
  0 < a -> 0 < b -> Zdigits a + Zdigits b - 1 <= Zdigits (a * b).
Proof.
  intros Ha Hb.
  pose proof (Zdigits_bounds a Ha) as Ba. pose proof (Zdigits_bounds b Hb) as Bb.
  pose proof (Zdigits_pos a Ha) as Da. pose proof (Zdigits_pos b Hb) as Db.
  assert (Pa : 0 < 2 ^ (Zdigits a - 1)) by (apply pow2_pos; lia).
  assert (Pb : 0 < 2 ^ (Zdigits b - 1)) by (apply pow2_pos; lia).
  assert (L : 2 ^ (Zdigits a - 1 + (Zdigits b - 1)) <= a * b).
  { rewrite Z.pow_add_r by lia. nia. }
  pose proof (Zdigits_lt_pow (a * b) ltac:(nia)) as U.
  destruct (Z.lt_ge_cases (Zdigits (a * b)) (Zdigits a + Zdigits b - 1));
    [|lia].
  assert (2 ^ Zdigits (a * b) <= 2 ^ (Zdigits a - 1 + (Zdigits b - 1))).
  { apply pow2_le. pose proof (Zdigits_nonneg (a * b)). lia. }
  lia.
Qed.

Lemma SFmul_key (x y : spec_float) :
  SpecFloat.valid_binary prec emax x = true -> is_fin x = true ->
  SpecFloat.valid_binary prec emax y = true -> is_fin y = true ->
  let R := SFmul prec emax x y in
  SpecFloat.valid_binary prec emax R = true /\ R <> S754_nan /\
  K R = RNZ (K x * K y) (2 ^ (- emin)).
Proof.
  intros Vx Fx Vy Fy. cbv zeta. pose proof emin_neg as Hemin.
  assert (PB : 0 < 2 ^ (- emin)) by (apply pow2_pos; lia).
  assert (E0 : RNZ 0 (2 ^ (- emin)) = 0).
  { unfold rnkz. simpl. apply rnk_0. lia. }
  destruct x as [sx|sx| |sx mx ex]; try discriminate;
    destruct y as [sy|sy| |sy my ey]; try discriminate;
    try (simpl SFmul; unfold key at 2 3;
         rewrite ?Z.mul_0_l, ?Z.mul_0_r, E0;
         repeat split; discriminate).
  destruct (valid_finite_inv sx mx ex Vx) as (Hex & Hcx & Hmx & Hnx).
  destruct (valid_finite_inv sy my ey Vy) as (Hey & Hcy & Hmy & Hny).
  unfold SFmul. rewrite <- loc_frac_exact.
  set (A := Z.pos mx * 2 ^ (ex - emin) * (Z.pos my * 2 ^ (ey - emin))).
  assert (PA : 0 < A).
  { unfold A. assert (0 < 2 ^ (ex - emin)) by (apply pow2_pos; lia).
    assert (0 < 2 ^ (ey - emin)) by (apply pow2_pos; lia). nia. }
  assert (EK : RNZ (K (S754_finite sx mx ex) * K (S754_finite sy my ey))
                 (2 ^ (- emin)) =
               cond_Zopp (xorb sx sy) (RN A (2 ^ (- emin)))).
  { unfold rnkz, key. fold A.
    destruct sx, sy; cbn [cond_Zopp xorb];
      rewrite ?Z.mul_opp_l, ?Z.mul_opp_r, ?Z.opp_involutive; fold A.
    - destruct (Z.ltb_spec A 0); [lia|reflexivity].
    - destruct (Z.ltb_spec (- A) 0); [|lia].
      rewrite ?Z.opp_involutive. reflexivity.
    - destruct (Z.ltb_spec (- A) 0); [|lia].
      rewrite ?Z.opp_involutive. reflexivity.
    - destruct (Z.ltb_spec A 0); [lia|reflexivity]. }
  rewrite EK.
  apply (binary_round_aux_key (xorb sx sy) (Z.pos (mx * my)) (ex + ey) 0 1
           (ex - emin + (ey - emin)) (- emin)); try lia.
  - rewrite Pos2Z.inj_mul.
    pose proof (Zdigits_mul_ge (Z.pos mx) (Z.pos my) ltac:(lia) ltac:(lia)).
    pose proof (Zdigits_pos (Z.pos mx) ltac:(lia)).
    pose proof (Zdigits_pos (Z.pos my) ltac:(lia)).
    unfold SpecFloat.fexp in *. lia.
  - unfold A. rewrite Pos2Z.inj_mul, Z.mul_1_l, Z.mul_1_r, Z.add_0_r.
    rewrite (Z.pow_add_r 2 (ex - emin)) by lia. ring.
Qed.

Lemma div_eucl_eq (a b : Z) : Z.div_eucl a b = (a / b, a mod b).
Proof. unfold Z.div, Z.modulo. destruct (Z.div_eucl a b). reflexivity. Qed.

(** The quotient of two positive integers, rounded once. *)
Lemma SFdiv_pos_key (s : bool) (mx my : positive) :
  let '(q, e', l) := SFdiv_core_binary prec emax (Z.pos mx) 0 (Z.pos my) 0 in
  let R := binary_round_aux prec emax s q e' l in
  SpecFloat.valid_binary prec emax R = true /\ R <> S754_nan /\
  K R = cond_Zopp s (RN (Z.pos mx * 2 ^ (- emin)) (Z.pos my)).
Proof.
  pose proof emin_neg as Hemin.
  unfold SFdiv_core_binary.
  rewrite !Zdigits2_Zdigits by lia. rewrite !Z.add_0_r.
  set (d1 := Zdigits (Z.pos mx)). set (d2 := Zdigits (Z.pos my)).
  set (e' := Z.min (fexp (d1 - d2)) (0 - 0)).
  assert (He' : emin <= e' <= 0) by (unfold e', SpecFloat.fexp; lia).
  set (s' := 0 - 0 - e').
  assert (Hs : s' = - e') by (unfold s'; lia).
  set (m' := match s' with
             | 0 => Z.pos mx
             | Z.pos _ => Z.shiftl (Z.pos mx) s'
             | Z.neg _ => 0
             end).
  assert (Hm' : m' = Z.pos mx * 2 ^ s').
  { unfold m'. destruct s' as [|p|p] eqn:E; [lia| |lia].
    rewrite Z.shiftl_mul_pow2 by lia. reflexivity. }
  assert (Ps : 0 < 2 ^ s') by (apply pow2_pos; lia).
  rewrite div_eucl_eq. cbv zeta iota beta.
  pose proof (Z.mod_pos_bound m' (Z.pos my) ltac:(lia)) as Hr.
  pose proof (Z.div_mod m' (Z.pos my) ltac:(lia)) as Hdm.
  assert (Hq : 0 <= m' / Z.pos my) by (apply Z.div_pos; nia).
  rewrite new_location_frac by lia.
  apply (binary_round_aux_key s (m' / Z.pos my) e' (m' mod Z.pos my)
           (Z.pos my) (e' - emin) 0); try lia.
  - apply Z.le_trans with (fexp (d1 - d2)); [unfold e'; lia|].
    apply fexp_le.
    pose proof (Zdigits_bounds (Z.pos mx) ltac:(lia)) as B1.
    pose proof (Zdigits_bounds (Z.pos my) ltac:(lia)) as B2.
    pose proof (Zdigits_pos (Z.pos mx) ltac:(lia)) as D1.
    pose proof (Zdigits_pos (Z.pos my) ltac:(lia)) as D2.
    fold d1 in B1, D1. fold d2 in B2, D2.
    pose proof (Zdigits_nonneg (m' / Z.pos my)) as Dq.
    destruct (Z.le_gt_cases (d1 + s' - d2) 0) as [Hle|Hgt]; [lia|].
    assert (Hlow : 2 ^ (d1 + s' - d2 - 1) <= m' / Z.pos my).
    { apply Z.div_le_lower_bound; [lia|].
      assert (X : 2 ^ (d1 + s' - d2 - 1) * 2 ^ d2 = 2 ^ (d1 - 1) * 2 ^ s').
      { rewrite <- !Z.pow_add_r by lia. f_equal. lia. }
      assert (0 < 2 ^ (d1 + s' - d2 - 1)) by (apply pow2_pos; lia).
      rewrite Hm'. nia. }
    pose proof (Zdigits_lt_pow (m' / Z.pos my) Hq) as U.
    destruct (Z.lt_ge_cases (Zdigits (m' / Z.pos my)) (d1 + s' - d2));
      [|lia].
    assert (2 ^ Zdigits (m' / Z.pos my) <= 2 ^ (d1 + s' - d2 - 1))
      by (apply pow2_le; lia).
    lia.
  - rewrite Z.pow_0_r, Z.mul_1_r.
    replace (m' / Z.pos my * Z.pos my + m' mod Z.pos my) with m' by lia.
    assert (X : 2 ^ (- emin) = 2 ^ s' * 2 ^ (e' - emin)).
    { rewrite <- Z.pow_add_r by lia. f_equal. lia. }
    rewrite X, Hm'. ring.
Qed.

Lemma SFdiv_int_key (a b : Z) :
  0 < b ->
  let R := SFdiv prec emax (Z2SF a) (Z2SF b) in
  SpecFloat.valid_binary prec emax R = true /\ R <> S754_nan /\
  K R = RNZ (a * 2 ^ (- emin)) b.
Proof.
  intros Hb. cbv zeta. pose proof emin_neg as Hemin.
  assert (PB : 0 < 2 ^ (- emin)) by (apply pow2_pos; lia).
  destruct b as [|pb|pb]; try lia.
  destruct a as [|pa|pa]; unfold Z2SF, SFdiv.
  - unfold rnkz. simpl. rewrite rnk_0 by lia. repeat split; discriminate.
  - pose proof (SFdiv_pos_key (xorb false false) pa pb) as H.
    destruct (SFdiv_core_binary prec emax (Z.pos pa) 0 (Z.pos pb) 0)
      as [[q e'] l].
    unfold rnkz. destruct (Z.ltb_spec (Z.pos pa * 2 ^ (- emin)) 0); [lia|].
    exact H.
  - pose proof (SFdiv_pos_key (xorb true false) pa pb) as H.
    destruct (SFdiv_core_binary prec emax (Z.pos pa) 0 (Z.pos pb) 0)
      as [[q e'] l].
    unfold rnkz. destruct (Z.ltb_spec (Z.neg pa * 2 ^ (- emin)) 0); [|lia].
    replace (- (Z.neg pa * 2 ^ (- emin))) with (Z.pos pa * 2 ^ (- emin))
      by lia.
    exact H.
Qed.

(** *** Order and truncation through keys *)

Lemma key_lex (s1 s2 : bool) (m1 m2 : positive) (e1 e2 : Z) :
  SpecFloat.valid_binary prec emax (S754_finite s1 m1 e1) = true ->
  SpecFloat.valid_binary prec emax (S754_finite s2 m2 e2) = true ->
  e1 < e2 -> Z.pos m1 * 2 ^ (e1 - emin) < Z.pos m2 * 2 ^ (e2 - emin).
Proof.
  intros V1 V2 He.
  destruct (valid_finite_inv s1 m1 e1 V1) as (He1 & _ & Hm1 & _).
  destruct (valid_finite_inv s2 m2 e2 V2) as (He2 & _ & _ & Hn2).
  specialize (Hn2 ltac:(lia)).
  assert (P1 : 0 < 2 ^ (e1 - emin)) by (apply pow2_pos; lia).
  assert (X : 2 ^ prec * 2 ^ (e1 - emin) <= 2 ^ (prec - 1) * 2 ^ (e2 - emin)).
  { rewrite <- !Z.pow_add_r by lia. apply pow2_le. lia. }
  assert (P2 : 0 < 2 ^ (e2 - emin)) by (apply pow2_pos; lia).
  nia.
Qed.

Lemma SFleb_key (x y : spec_float) :
  SpecFloat.valid_binary prec emax x = true -> is_fin x = true ->
  SpecFloat.valid_binary prec emax y = true -> is_fin y = true ->
  SFleb x y = true -> K x <= K y.
Proof.
  intros Vx Fx Vy Fy.
  destruct x as [sx|sx| |sx mx ex]; try discriminate;
    destruct y as [sy|sy| |sy my ey]; try discriminate.
  - pose proof (key_finite_bound sy my ey Vy).
    unfold SFleb, SFcompare, key. destruct sy; cbn [cond_Zopp];
      [discriminate|lia].
  - pose proof (key_finite_bound sx mx ex Vx).
    unfold SFleb, SFcompare, key. destruct sx; cbn [cond_Zopp];
      [lia|discriminate].
  - pose proof (key_finite_bound sx mx ex Vx) as Bx.
    pose proof (key_finite_bound sy my ey Vy) as By.
    pose proof (key_lex sx sy mx my ex ey Vx Vy) as Lxy.
    pose proof (key_lex sy sx my mx ey ex Vy Vx) as Lyx.
    unfold SFleb, SFcompare, key.
    change (Pos.compare_cont Eq mx my) with (Pos.compare mx my).
    set (kx := Z.pos mx * 2 ^ (ex - emin)) in *.
    set (ky := Z.pos my * 2 ^ (ey - emin)) in *.
    assert (Heq : ex = ey -> (mx <= my)%positive -> kx <= ky).
    { intros -> Hm. unfold kx, ky.
      apply Z.mul_le_mono_nonneg_r; [|lia].
      apply Z.lt_le_incl, pow2_pos.
      destruct (valid_finite_inv sy my ey Vy). lia. }
    assert (Heq' : ex = ey -> (my <= mx)%positive -> ky <= kx).
    { intros -> Hm. unfold kx, ky.
      apply Z.mul_le_mono_nonneg_r; [|lia].
      apply Z.lt_le_incl, pow2_pos.
      destruct (valid_finite_inv sy my ey Vy). lia. }
    destruct sx, sy; cbn [cond_Zopp]; try discriminate; try lia;
      destruct (Z.compare_spec ex ey); try discriminate; try lia;
      destruct (Pos.compare_spec mx my); simpl; try discriminate;
      intros _; try lia.
Qed.

Lemma SFabs_key (x : spec_float) :
  SpecFloat.valid_binary prec emax x = true -> is_fin x = true ->
  SpecFloat.valid_binary prec emax (SFabs x) = true /\
  is_fin (SFabs x) = true /\ K (SFabs x) = Z.abs (K x).
Proof.
  intros Vx Fx. destruct x as [s|s| |s m e]; try discriminate.
  - repeat split.
  - pose proof (key_finite_bound s m e Vx).
    split; [exact Vx|]. split; [reflexivity|].
    unfold SFabs, key. destruct s; cbn [cond_Zopp]; lia.
Qed.

Lemma SFtrunc_key (x : spec_float) :
  SpecFloat.valid_binary prec emax x = true -> is_fin x = true ->
  SFtrunc x = Z.quot (K x) (2 ^ (- emin)).
Proof.
  intros Vx Fx. pose proof emin_neg as Hemin.
  assert (PB : 0 < 2 ^ (- emin)) by (apply pow2_pos; lia).
  destruct x as [s|s| |s m e]; try discriminate.
  - simpl. rewrite Z.quot_0_l; lia.
  - destruct (valid_finite_inv s m e Vx) as (He & _).
    pose proof (key_finite_bound s m e Vx) as Bk.
    assert (E : Z.shiftl (Z.pos m) e =
                (Z.pos m * 2 ^ (e - emin)) / 2 ^ (- emin)).
    { destruct (Z.le_gt_cases 0 e) as [Hp|Hn].
      - rewrite Z.shiftl_mul_pow2 by lia.
        replace (e - emin) with (e + - emin) by lia.
        rewrite Z.pow_add_r, Z.mul_assoc, Z.div_mul by lia. reflexivity.
      - rewrite Z.shiftl_div_pow2 by lia.
        assert (X : 2 ^ (- emin) = 2 ^ (- e) * 2 ^ (e - emin)).
        { rewrite <- Z.pow_add_r by lia. f_equal. lia. }
        rewrite X.
        rewrite Z.div_mul_cancel_r; [reflexivity| |].
        + apply Z.pow_nonzero; lia.
        + apply Z.pow_nonzero; lia. }
    unfold SFtrunc, key. rewrite E.
    destruct s; cbn [cond_Zopp].
    + rewrite Z.quot_opp_l by lia. rewrite Z.quot_div_nonneg by lia.
      reflexivity.
    + rewrite Z.quot_div_nonneg by lia. reflexivity.
Qed.

End Rounding.

(** ** Binary64 *)

Lemma prec_gt_1 : 1 < prec.
Proof. reflexivity. Qed.

Lemma prec_lt_emax : prec < emax.
Proof. reflexivity. Qed.

Lemma unit64_pos : 0 < unit64.
Proof. unfold unit64. apply Z.pow_pos_nonneg; [lia|]. discriminate. Qed.

Lemma R64_mono (a1 b1 a2 b2 : Z) :
  0 < b1 -> 0 < b2 -> a1 * b2 <= a2 * b1 -> R64 a1 b1 <= R64 a2 b2.
Proof. apply (rnkz_mono prec emax prec_gt_1 prec_lt_emax). Qed.

Lemma R64_opp (a b : Z) : 0 < b -> R64 (- a) b = - R64 a b.
Proof. apply (rnkz_opp prec emax prec_gt_1 prec_lt_emax). Qed.

Lemma add_key (x y : float) :
  finite x = true -> finite y = true ->
  Prim2SF (x + y) <> S754_nan /\ fkey (x + y) = R64 (fkey x + fkey y) 1.
Proof.
  intros Fx Fy. unfold fkey. rewrite add_spec.
  destruct (SFadd_key prec emax prec_gt_1 prec_lt_emax (Prim2SF x) (Prim2SF y)
              (Prim2SF_valid x) Fx (Prim2SF_valid y) Fy) as (_ & H2 & H3).
  split; assumption.
Qed.

Lemma sub_key (x y : float) :
  finite x = true -> finite y = true ->
  Prim2SF (x - y) <> S754_nan /\ fkey (x - y) = R64 (fkey x - fkey y) 1.
Proof.
  intros Fx Fy. unfold fkey. rewrite sub_spec.
  destruct (SFsub_key prec emax prec_gt_1 prec_lt_emax (Prim2SF x) (Prim2SF y)
              (Prim2SF_valid x) Fx (Prim2SF_valid y) Fy) as (_ & H2 & H3).
  split; assumption.
Qed.

Lemma mul_key (x y : float) :
  finite x = true -> finite y = true ->
  Prim2SF (x * y) <> S754_nan /\ fkey (x * y) = R64 (fkey x * fkey y) unit64.
Proof.
  intros Fx Fy. unfold fkey. rewrite mul_spec.
  destruct (SFmul_key prec emax prec_gt_1 prec_lt_emax (Prim2SF x) (Prim2SF y)
              (Prim2SF_valid x) Fx (Prim2SF_valid y) Fy) as (_ & H2 & H3).
  split; assumption.
Qed.

Lemma abs_key (x : float) :
  finite x = true -> finite (abs x) = true /\ fkey (abs x) = Z.abs (fkey x).
Proof.
  intros Fx. unfold fkey, finite. rewrite abs_spec.
  destruct (SFabs_key prec emax prec_gt_1 prec_lt_emax (Prim2SF x)
              (Prim2SF_valid x) Fx) as (_ & H2 & H3).
  split; assumption.
Qed.

Lemma leb_key (x y : float) :
  finite x = true -> finite y = true ->
  (x <=? y)%float = true -> fkey x <= fkey y.
Proof.
  intros Fx Fy. rewrite leb_spec.
  apply (SFleb_key prec emax prec_gt_1 prec_lt_emax);
    auto using Prim2SF_valid.
Qed.

Lemma finite_of_key (x : float) :
  Prim2SF x <> S754_nan ->
  - key_inf prec emax < fkey x < key_inf prec emax -> finite x = true.
Proof. apply fin_of_key. Qed.

(** An operation with a finite result had finite operands. *)
Lemma add_finite_inv (x y : float) :
  finite (x + y) = true -> finite x = true /\ finite y = true.
Proof.
  unfold finite. rewrite add_spec.
  destruct (Prim2SF x) as [sx|sx| |sx mx ex],
           (Prim2SF y) as [sy|sy| |sy my ey];
    try (intros _; split; reflexivity);
    try (destruct sx); try (destruct sy); intros H; discriminate H.
Qed.

Lemma sub_finite_inv (x y : float) :
  finite (x - y) = true -> finite x = true /\ finite y = true.
Proof.
  unfold finite. rewrite sub_spec.
  destruct (Prim2SF x) as [sx|sx| |sx mx ex],
           (Prim2SF y) as [sy|sy| |sy my ey];
    try (intros _; split; reflexivity);
    try (destruct sx); try (destruct sy); intros H; discriminate H.
Qed.

Lemma mul_finite_inv (x y : float) :
  finite (x * y) = true -> finite x = true /\ finite y = true.
Proof.
  unfold finite. rewrite mul_spec.
  destruct (Prim2SF x) as [sx|sx| |sx mx ex],
           (Prim2SF y) as [sy|sy| |sy my ey];
    try (intros _; split; reflexivity);
    try (destruct sx); try (destruct sy); intros H; discriminate H.
Qed.

Lemma abs_finite_inv (x : float) : finite (abs x) = true -> finite x = true.
Proof.
  unfold finite. rewrite abs_spec.
  destruct (Prim2SF x); intros H; try reflexivity; discriminate H.
Qed.

(** ** The classifier *)

Lemma safe_band_iff (ph turb : float) (tds : Z) :
  safe_band ph turb tds <->
  (6.5 <=? ph)%float && (ph <=? 8.5)%float && (turb <? 3)%float
    && (tds <=? 600) = true.
Proof.
  unfold safe_band. rewrite !andb_true_iff, Z.leb_le. tauto.
Qed.

Lemma moderate_band_iff (turb : float) (tds : Z) :
  moderate_band turb tds <-> (turb <=? 5)%float && (tds <=? 900) = true.
Proof.
  unfold moderate_band. rewrite andb_true_iff, Z.leb_le. tauto.
Qed.

Lemma classify_cases (ph turb : float) (tds : Z) :
  (classify ph turb tds = "Safe" <-> safe_band ph turb tds) /\
  (classify ph turb tds = "Moderate" <->
     ~ safe_band ph turb tds /\ moderate_band turb tds) /\
  (classify ph turb tds = "Unsafe" <->
     ~ safe_band ph turb tds /\ ~ moderate_band turb tds).
Proof.
  rewrite safe_band_iff, moderate_band_iff. unfold classify.
  destruct ((6.5 <=? ph)%float && (ph <=? 8.5)%float && (turb <? 3)%float
            && (tds <=? 600));
    destruct ((turb <=? 5)%float && (tds <=? 900));
    repeat split; intros; try discriminate; try tauto;
    try (intros ?; discriminate);
    match goal with H : _ /\ _ |- _ => destruct H end;
    try discriminate; exfalso; auto.
Qed.

(** C1: the bands are tried in order and the first match wins: Safe iff the
    Safe band holds, Moderate iff it does not and the Moderate band holds,
    Unsafe iff neither holds; one of the three is returned. *)
Theorem classify_bands (ph turb : float) (tds : Z) :
  (classify ph turb tds = "Safe" <->
     (6.5 <=? ph)%float = true /\ (ph <=? 8.5)%float = true /\
     (turb <? 3)%float = true /\ tds <= 600) /\
  (classify ph turb tds = "Moderate" <->
     ~ safe_band ph turb tds /\
     (turb <=? 5)%float = true /\ tds <= 900) /\
  (classify ph turb tds = "Unsafe" <->
     ~ safe_band ph turb tds /\ ~ moderate_band turb tds) /\
  (classify ph turb tds = "Safe" \/ classify ph turb tds = "Moderate" \/
   classify ph turb tds = "Unsafe").
Proof.
  destruct (classify_cases ph turb tds) as (HS & HM & HU).
  split; [exact HS|]. split; [exact HM|]. split; [exact HU|].
  unfold classify. destruct (_ && _); auto. destruct (_ && _); auto.
Qed.

(** C5: a turbidity equal to 3, with pH within 6.5 and 8.5 and a TDS of at
    most 600, is Moderate and not Safe. *)
Theorem classify_turbidity_3 (ph turb : float) (tds : Z) :
  (turb =? 3)%float = true ->
  (6.5 <=? ph)%float = true -> (ph <=? 8.5)%float = true -> tds <= 600 ->
  classify ph turb tds = "Moderate" /\ classify ph turb tds <> "Safe".
Proof.
  intros Ht Hlo Hhi Htds. apply eqb_3 in Ht. subst turb.
  assert (E : classify ph 3 tds = "Moderate").
  { unfold classify. rewrite Hlo, Hhi.
    change ((3 <? 3)%float) with false.
    change ((3 <=? 5)%float) with true.
    simpl. replace (tds <=? 900) with true by (symmetry; apply Z.leb_le; lia).
    reflexivity. }
  rewrite E. split; [reflexivity | discriminate].
Qed.

Lemma classify_turbidity_3_witness :
  classify 7 3 600 = "Moderate" /\ classify 7 3 600 <> "Safe".
Proof.
  apply (classify_turbidity_3 7 3 600); [reflexivity .. | lia].
Defined.

Lemma gt_5_not_moderate (turb : float) :
  (5 <? turb)%float = true ->
  (turb <? 3)%float = false /\ (turb <=? 5)%float = false.
Proof.
  intros H. split.
  - destruct (turb <? 3)%float eqn:E; [|reflexivity].
    assert (C : (5 <? 5)%float = true).
    { apply ltb_trans with turb; [exact H|].
      apply ltb_trans with 3%float; [exact E | reflexivity]. }
    rewrite ltb_irrefl in C. discriminate.
  - apply ltb_not_leb. exact H.
Qed.

Lemma above_bands_unsafe (ph turb : float) (tds : Z) :
  (5 <? turb)%float = true \/ 900 < tds -> classify ph turb tds = "Unsafe".
Proof.
  intros H. unfold classify. destruct H as [H|H].
  - destruct (gt_5_not_moderate turb H) as [H3 H5].
    rewrite H3, H5, !andb_false_r. reflexivity.
  - replace (tds <=? 600) with false by (symmetry; apply Z.leb_gt; lia).
    replace (tds <=? 900) with false by (symmetry; apply Z.leb_gt; lia).
    rewrite !andb_false_r. reflexivity.
Qed.

(** C6: a turbidity above 5 or a TDS above 900 makes the reading Unsafe (such
    a reading is never in the Safe band). *)
Theorem classify_unsafe (ph turb : float) (tds : Z) :
  (5 <? turb)%float = true \/ 900 < tds ->
  classify ph turb tds <> "Safe" /\ classify ph turb tds = "Unsafe".
Proof.
  intros H. rewrite (above_bands_unsafe ph turb tds H).
  split; [discriminate | reflexivity].
Qed.

Lemma classify_unsafe_witness :
  (classify 7 5.5 100 <> "Safe" /\ classify 7 5.5 100 = "Unsafe") /\
  (classify 7 1 901 <> "Safe" /\ classify 7 1 901 = "Unsafe").
Proof.
  split.
  - apply (classify_unsafe 7 5.5 100). left. reflexivity.
  - apply (classify_unsafe 7 1 901). right. lia.
Defined.

(** C10: the pH alone never makes a reading Unsafe.  With a turbidity of at
    most 5 and a TDS of at most 900 the reading is Safe or Moderate whatever
    the pH, and for a turbidity that is a number ([turb == turb], so not a
    NaN) the reading is Unsafe iff the turbidity is above 5 or the TDS is
    above 900. *)
Theorem classify_unsafe_iff (ph turb : float) (tds : Z) :
  ((turb <=? 5)%float = true -> tds <= 900 ->
     classify ph turb tds = "Safe" \/ classify ph turb tds = "Moderate") /\
  ((turb =? turb)%float = true ->
     (classify ph turb tds = "Unsafe" <->
        (5 <? turb)%float = true \/ 900 < tds)).
Proof.
  split.
  - intros Ht Htds. unfold classify. rewrite Ht.
    replace (tds <=? 900) with true by (symmetry; apply Z.leb_le; lia).
    simpl. destruct (_ && _); auto.
  - intros Hnum. split.
    + intros HU. destruct (classify_cases ph turb tds) as (_ & _ & HB).
      apply HB in HU. destruct HU as [_ HM].
      rewrite moderate_band_iff in HM.
      destruct (turb <=? 5)%float eqn:E.
      * right. simpl in HM. destruct (Z.leb_spec tds 900); [congruence | lia].
      * left. apply leb_false_ltb; [exact Hnum | reflexivity | exact E].
    + intros H. apply above_bands_unsafe. exact H.
Qed.

Lemma classify_unsafe_iff_witness :
  (classify 0 5 900 = "Safe" \/ classify 0 5 900 = "Moderate") /\
  (classify 14 5 900 = "Unsafe" <-> (5 <? 5)%float = true \/ 900 < 900).
Proof.
  split.
  - apply (classify_unsafe_iff 0 5 900); [reflexivity | lia].
  - apply (classify_unsafe_iff 14 5 900). reflexivity.
Defined.

(** ** The quality index *)






(** C9: the two end-to-end readings of the specification: (4.0, 9.0, 1000)
    is Unsafe with index 0, and (7.2, 2.0, 350) is Safe with index 75. *)
Theorem end_to_end_readings :
  classify 4 9 1000 = "Unsafe" /\ wqi 4 9 1000 = Some 0 /\
  classify f7_2 2 350 = "Safe" /\ wqi f7_2 2 350 = Some 75.
Proof. repeat split; vm_compute; reflexivity. Qed.

Lemma int_of_float_Some (x : float) (n : Z) :
  int_of_float x = Some n ->
  finite x = true /\ n = Z.quot (fkey x) unit64.
Proof.
  unfold int_of_float, finite, fkey, unit64. intros H.
  rewrite <- (SFtrunc_key prec emax prec_gt_1 prec_lt_emax (Prim2SF x)
                (Prim2SF_valid x)).
  - destruct (Prim2SF x); inversion H; split; reflexivity.
  - destruct (Prim2SF x); try discriminate; reflexivity.
Qed.

Lemma int_of_float_finite (x : float) :
  finite x = true -> int_of_float x = Some (Z.quot (fkey x) unit64).
Proof.
  unfold int_of_float, finite, fkey, unit64. intros H.
  rewrite <- (SFtrunc_key prec emax prec_gt_1 prec_lt_emax (Prim2SF x)
                (Prim2SF_valid x) H).
  destruct (Prim2SF x); try discriminate; reflexivity.
Qed.

Lemma int_truediv_Some (a b : Z) (q : float) :
  0 < b -> int_truediv a b = Some q ->
  finite q = true /\ fkey q = R64 (a * unit64) b.
Proof.
  intros Hb. unfold int_truediv, finite, fkey.
  destruct (SFdiv_int_key prec emax prec_gt_1 prec_lt_emax a b Hb)
    as (V & _ & HK).
  fold unit64 in HK. fold (R64 (a * unit64) b) in HK.
  destruct (SFdiv prec emax (Z2SF a) (Z2SF b)) as [s|s| |s m e] eqn:E;
    intros H; try discriminate H.
  - replace q with (SF2Prim (S754_zero s)) by congruence.
    rewrite Prim2SF_SF2Prim by exact V. split; [reflexivity|exact HK].
  - replace q with (SF2Prim (S754_finite s m e)) by congruence.
    rewrite Prim2SF_SF2Prim by exact V. split; [reflexivity|exact HK].
Qed.

Lemma int_truediv_defined (a b : Z) :
  0 < b -> - key_inf prec emax < R64 (a * unit64) b < key_inf prec emax ->
  exists q, int_truediv a b = Some q.
Proof.
  intros Hb HR. unfold int_truediv.
  destruct (SFdiv_int_key prec emax prec_gt_1 prec_lt_emax a b Hb)
    as (V & N & HK).
  fold unit64 in HK. fold (R64 (a * unit64) b) in HK.
  destruct (SFdiv prec emax (Z2SF a) (Z2SF b)) as [s|s| |s m e] eqn:E.
  - eexists; reflexivity.
  - exfalso. unfold key in HK. destruct s; cbn [cond_Zopp] in HK; lia.
  - congruence.
  - eexists; reflexivity.
Qed.

Lemma finite_const_100 : finite 100 = true. Proof. reflexivity. Qed.
Lemma finite_const_10 : finite 10 = true. Proof. reflexivity. Qed.
Lemma finite_const_8 : finite 8 = true. Proof. reflexivity. Qed.
Lemma finite_const_7 : finite 7 = true. Proof. reflexivity. Qed.

Lemma wqi_raw_key (ph t : float) (d : Z) (raw : float) :
  wqi_raw ph t d = Some raw -> finite raw = true ->
  finite t = true /\ finite (abs (7 - ph)) = true /\
  fkey raw = raw_key (fkey (abs (7 - ph))) (fkey t) d.
Proof.
  unfold wqi_raw. destruct (int_truediv d 50) as [q|] eqn:Eq; [|discriminate].
  intros H Fraw. inversion H as [Hraw]. clear H. rewrite <- Hraw in Fraw.
  destruct (int_truediv_Some d 50 q ltac:(lia) Eq) as [Fq Kq].
  destruct (sub_finite_inv _ _ Fraw) as [_ FS2].
  destruct (add_finite_inv _ _ FS2) as [FS1 _].
  destruct (add_finite_inv _ _ FS1) as [FA FT].
  destruct (mul_finite_inv _ _ FA) as [Fa _].
  destruct (mul_finite_inv _ _ FT) as [Ft _].
  split; [exact Ft|]. split; [exact Fa|].
  unfold raw_key.
  rewrite (proj2 (sub_key _ _ finite_const_100 FS2)).
  rewrite (proj2 (add_key _ _ FS1 Fq)), (proj2 (add_key _ _ FA FT)).
  rewrite (proj2 (mul_key _ _ Fa finite_const_10)).
  rewrite (proj2 (mul_key _ _ Ft finite_const_8)), Kq.
  reflexivity.
Qed.

Lemma wqi_Some_key (ph t : float) (d n : Z) :
  wqi ph t d = Some n ->
  finite t = true /\ finite (abs (7 - ph)) = true /\
  n = Z.max 0 (Z.min 100
        (Z.quot (raw_key (fkey (abs (7 - ph))) (fkey t) d) unit64)).
Proof.
  unfold wqi. destruct (wqi_raw ph t d) as [raw|] eqn:Er; [|discriminate].
  destruct (int_of_float raw) as [k|] eqn:Ek; [|discriminate].
  intros H. inversion H as [Hn]. clear H.
  destruct (int_of_float_Some raw k Ek) as [Fraw Hk].
  destruct (wqi_raw_key ph t d raw Er Fraw) as (Ft & Fa & HK).
  split; [exact Ft|]. split; [exact Fa|]. rewrite Hk, HK. reflexivity.
Qed.

Lemma fkey_10_pos : 0 < fkey 10. Proof. reflexivity. Qed.
Lemma fkey_8_pos : 0 < fkey 8. Proof. reflexivity. Qed.

(** The raw value goes down when a penalty goes up. *)
Lemma raw_key_anti (a1 a2 kt1 kt2 d1 d2 : Z) :
  a1 <= a2 -> kt1 <= kt2 -> d1 <= d2 ->
  raw_key a2 kt2 d2 <= raw_key a1 kt1 d1.
Proof.
  intros Ha Ht Hd. unfold raw_key.
  pose proof unit64_pos as HU. pose proof fkey_10_pos as H10.
  pose proof fkey_8_pos as H8.
  assert (HA : R64 (a1 * fkey 10) unit64 <= R64 (a2 * fkey 10) unit64).
  { apply R64_mono; try lia.
    apply Z.mul_le_mono_nonneg_r; [lia|].
    apply Z.mul_le_mono_nonneg_r; lia. }
  assert (HT : R64 (kt1 * fkey 8) unit64 <= R64 (kt2 * fkey 8) unit64).
  { apply R64_mono; try lia.
    apply Z.mul_le_mono_nonneg_r; [lia|].
    apply Z.mul_le_mono_nonneg_r; lia. }
  assert (HD : R64 (d1 * unit64) 50 <= R64 (d2 * unit64) 50).
  { apply R64_mono; try lia.
    apply Z.mul_le_mono_nonneg_r; [lia|].
    apply Z.mul_le_mono_nonneg_r; lia. }
  apply R64_mono; try lia.
  rewrite !Z.mul_1_r. apply Z.sub_le_mono_l.
  apply R64_mono; try lia.
  rewrite !Z.mul_1_r. apply Z.add_le_mono; [|exact HD].
  apply R64_mono; try lia.
Qed.

Lemma clamp_quot_mono (k1 k2 : Z) :
  k1 <= k2 ->
  Z.max 0 (Z.min 100 (Z.quot k1 unit64)) <=
  Z.max 0 (Z.min 100 (Z.quot k2 unit64)).
Proof.
  intros H. pose proof (Z.quot_le_mono k1 k2 unit64 unit64_pos H). lia.
Qed.

Lemma R64_fix (c : float) : finite c = true -> R64 (fkey c) 1 = fkey c.
Proof.
  intros Fc. apply (rnkz_fix prec emax prec_gt_1 prec_lt_emax);
    [apply Prim2SF_valid|exact Fc].
Qed.

Lemma R64_scale (k b : Z) : 0 < b -> R64 (k * b) b = R64 k 1.
Proof.
  intros Hb. apply Z.le_antisymm; apply R64_mono; lia.
Qed.

(** A bound that is a float bounds the rounded value too. *)
Lemma R64_bound (v b : Z) (c : float) :
  finite c = true -> 0 < b -> Z.abs v <= fkey c * b ->
  Z.abs (R64 v b) <= fkey c.
Proof.
  intros Fc Hb Hv.
  assert (U : R64 v b <= fkey c).
  { rewrite <- (R64_fix c Fc), <- (R64_scale (fkey c) b Hb).
    apply R64_mono; try lia.
    apply Z.mul_le_mono_nonneg_r; lia. }
  assert (L : - fkey c <= R64 v b).
  { rewrite <- (R64_fix c Fc), <- (R64_scale (fkey c) b Hb).
    rewrite <- R64_opp by lia. apply R64_mono; try lia.
    apply Z.mul_le_mono_nonneg_r; lia. }
  lia.
Qed.

Lemma R64_abs (v b : Z) : 0 < b -> Z.abs (R64 v b) = R64 (Z.abs v) b.
Proof.
  intros Hb.
  assert (N : forall a, 0 <= a -> 0 <= R64 a b).
  { intros a Ha. unfold R64, rnkz. destruct (Z.ltb_spec a 0); [lia|].
    apply (rnk_range prec emax prec_gt_1 prec_lt_emax); lia. }
  destruct (Z.le_gt_cases 0 v) as [Hv|Hv].
  - rewrite (Z.abs_eq v) by lia. apply Z.abs_eq. apply N. lia.
  - rewrite (Z.abs_neq v) by lia. rewrite R64_opp by lia.
    apply Z.abs_neq. pose proof (N (- v) ltac:(lia)) as H.
    rewrite R64_opp in H by lia. lia.
Qed.

Lemma abs_sub_key (ph : float) :
  finite ph = true ->
  Prim2SF (7 - ph) <> S754_nan /\
  (finite (7 - ph) = true ->
   fkey (abs (7 - ph)) = R64 (Z.abs (fkey 7 - fkey ph)) 1).
Proof.
  intros Fp. destruct (sub_key 7 ph finite_const_7 Fp) as [N HK].
  split; [exact N|]. intros F.
  rewrite (proj2 (abs_key _ F)), HK. apply R64_abs. lia.
Qed.

Lemma wqi_finite_ph (ph t : float) (d n : Z) :
  wqi ph t d = Some n -> finite ph = true /\ finite (7 - ph) = true.
Proof.
  intros H. destruct (wqi_Some_key ph t d n H) as (_ & Fa & _).
  apply abs_finite_inv in Fa. split; [|exact Fa].
  apply (sub_finite_inv 7 ph Fa).
Qed.

(** C7: the index does not go up when one penalty goes up and the other two
    inputs stay: in the turbidity, in the TDS and in the distance of the pH
    from 7, taken either as the float [abs (7 - ph)] the code computes or as
    the exact distance ([fkey x] is [x] counted in units of [2^-1074], so
    [Z.abs (fkey 7 - fkey ph)] is [|7 - ph|] without rounding).  The two
    readings are any two on which the code returns an index. *)
Theorem wqi_monotone :
  (forall ph t1 t2 d n1 n2,
     (t1 <=? t2)%float = true ->
     wqi ph t1 d = Some n1 -> wqi ph t2 d = Some n2 -> n2 <= n1) /\
  (forall ph t d1 d2 n1 n2,
     d1 <= d2 ->
     wqi ph t d1 = Some n1 -> wqi ph t d2 = Some n2 -> n2 <= n1) /\
  (forall ph1 ph2 t d n1 n2,
     (abs (7 - ph1) <=? abs (7 - ph2))%float = true ->
     wqi ph1 t d = Some n1 -> wqi ph2 t d = Some n2 -> n2 <= n1) /\
  (forall ph1 ph2 t d n1 n2,
     Z.abs (fkey 7 - fkey ph1) <= Z.abs (fkey 7 - fkey ph2) ->
     wqi ph1 t d = Some n1 -> wqi ph2 t d = Some n2 -> n2 <= n1).
Proof.
  repeat split.
  - intros ph t1 t2 d n1 n2 Ht H1 H2.
    destruct (wqi_Some_key _ _ _ _ H1) as (F1 & _ & ->).
    destruct (wqi_Some_key _ _ _ _ H2) as (F2 & _ & ->).
    apply clamp_quot_mono, raw_key_anti; try lia.
    apply leb_key; assumption.
  - intros ph t d1 d2 n1 n2 Hd H1 H2.
    destruct (wqi_Some_key _ _ _ _ H1) as (_ & _ & ->).
    destruct (wqi_Some_key _ _ _ _ H2) as (_ & _ & ->).
    apply clamp_quot_mono, raw_key_anti; lia.
  - intros ph1 ph2 t d n1 n2 Hp H1 H2.
    destruct (wqi_Some_key _ _ _ _ H1) as (_ & F1 & ->).
    destruct (wqi_Some_key _ _ _ _ H2) as (_ & F2 & ->).
    apply clamp_quot_mono, raw_key_anti; try lia.
    apply leb_key; assumption.
  - intros ph1 ph2 t d n1 n2 Hp H1 H2.
    destruct (wqi_finite_ph _ _ _ _ H1) as [P1 Q1].
    destruct (wqi_finite_ph _ _ _ _ H2) as [P2 Q2].
    destruct (wqi_Some_key _ _ _ _ H1) as (_ & _ & ->).
    destruct (wqi_Some_key _ _ _ _ H2) as (_ & _ & ->).
    apply clamp_quot_mono, raw_key_anti; try lia.
    rewrite (proj2 (abs_sub_key ph1 P1) Q1), (proj2 (abs_sub_key ph2 P2) Q2).
    apply R64_mono; lia.
Qed.

(** *** The index is defined on bounded readings *)

Lemma finite_of_bound (x c : float) :
  Prim2SF x <> S754_nan -> finite c = true ->
  Z.abs (fkey x) <= fkey c -> finite x = true.
Proof.
  intros N Fc H. apply finite_of_key; [exact N|].
  pose proof (key_bound prec emax prec_gt_1 prec_lt_emax (Prim2SF c)
                (Prim2SF_valid c) Fc) as B.
  fold (fkey c) in B. lia.
Qed.

Lemma finite_abs_leb (x c : float) :
  finite c = true -> (abs x <=? c)%float = true -> finite x = true.
Proof.
  unfold finite. rewrite leb_spec, abs_spec.
  destruct (Prim2SF x) as [s|s| |s m e]; try reflexivity;
    destruct (Prim2SF c) as [sc|sc| |sc mc ec]; try discriminate;
    intros _ H; discriminate H.
Qed.

Lemma finite_between (lo x hi : float) :
  finite lo = true -> finite hi = true ->
  (lo <=? x)%float = true -> (x <=? hi)%float = true -> finite x = true.
Proof.
  unfold finite. rewrite !leb_spec.
  destruct (Prim2SF x) as [s|s| |s m e]; try reflexivity;
    destruct (Prim2SF lo) as [sl|sl| |sl ml el]; try discriminate;
    destruct (Prim2SF hi) as [sh|sh| |sh mh eh]; try discriminate;
    intros _ _ H1 H2; try discriminate H1; try discriminate H2;
    destruct s; try discriminate H1; discriminate H2.
Qed.

Lemma Zle_by_leb (a b : Z) : (a <=? b) = true -> a <= b.
Proof. apply Z.leb_le. Qed.

Lemma big_facts :
  fkey 7 + fkey big <= fkey big1 /\
  fkey big1 * fkey 10 <= fkey big5 * unit64 /\
  fkey big * fkey 8 <= fkey big5 * unit64 /\
  fkey big5 + fkey big5 <= fkey big6 /\
  fkey big = 2 ^ 1000 * unit64 /\
  fkey big6 + fkey big <= fkey big7 /\
  fkey 100 + fkey big7 <= fkey big8 /\
  0 <= fkey 7 /\ 0 <= fkey 100 /\ fkey 0 = 0.
Proof.
  repeat split; try (apply Zle_by_leb; vm_compute; reflexivity);
    vm_compute; reflexivity.
Qed.

Lemma wqi_defined (ph t : float) (d : Z) :
  (abs ph <=? big)%float = true ->
  (0 <=? t)%float = true -> (t <=? big)%float = true ->
  0 <= d <= 2 ^ 1000 ->
  exists n, wqi ph t d = Some n /\ 0 <= n <= 100.
Proof.
  intros Hph Ht0 Ht1 Hd.
  destruct big_facts as (B1 & B2 & B3 & B4 & B5 & B6 & B7 & P7 & P100 & K0).
  pose proof unit64_pos as HU.
  pose proof fkey_10_pos as H10. pose proof fkey_8_pos as H8.
  assert (Fbig : finite big = true) by reflexivity.
  (* inputs *)
  assert (Fp : finite ph = true) by (apply (finite_abs_leb ph big); auto).
  assert (Ft : finite t = true)
    by (apply (finite_between 0 t big); auto).
  assert (Kp : Z.abs (fkey ph) <= fkey big).
  { rewrite <- (proj2 (abs_key ph Fp)).
    apply leb_key; auto. apply abs_key; exact Fp. }
  assert (Kt : 0 <= fkey t <= fkey big).
  { split; [rewrite <- K0|]; apply leb_key; auto. }
  (* 7 - ph and its absolute value *)
  destruct (sub_key 7 ph finite_const_7 Fp) as [N1 K1].
  assert (A1 : Z.abs (fkey (7 - ph)) <= fkey big1).
  { rewrite K1. apply R64_bound; [reflexivity|lia|lia]. }
  assert (F1 : finite (7 - ph) = true)
    by (apply (finite_of_bound _ big1); auto).
  destruct (abs_key _ F1) as [Fa Ka].
  (* the two products *)
  destruct (mul_key _ 10 Fa finite_const_10) as [N2 K2].
  assert (A2 : Z.abs (fkey (abs (7 - ph) * 10)) <= fkey big5).
  { rewrite K2. apply R64_bound; [reflexivity|lia|].
    rewrite Z.abs_mul, Ka, Z.abs_idemp, (Z.abs_eq (fkey 10)) by lia.
    apply Z.le_trans with (fkey big1 * fkey 10); [|exact B2].
    apply Z.mul_le_mono_nonneg_r; lia. }
  assert (F2 : finite (abs (7 - ph) * 10) = true)
    by (apply (finite_of_bound _ big5); auto).
  destruct (mul_key t 8 Ft finite_const_8) as [N3 K3].
  assert (A3 : Z.abs (fkey (t * 8)) <= fkey big5).
  { rewrite K3. apply R64_bound; [reflexivity|lia|].
    rewrite Z.abs_mul, (Z.abs_eq (fkey t)), (Z.abs_eq (fkey 8)) by lia.
    apply Z.le_trans with (fkey big * fkey 8); [|exact B3].
    apply Z.mul_le_mono_nonneg_r; lia. }
  assert (F3 : finite (t * 8) = true)
    by (apply (finite_of_bound _ big5); auto).
  (* the sums *)
  destruct (add_key _ _ F2 F3) as [N4 K4].
  assert (A4 : Z.abs (fkey (abs (7 - ph) * 10 + t * 8)) <= fkey big6).
  { rewrite K4. apply R64_bound; [reflexivity|lia|lia]. }
  assert (F4 : finite (abs (7 - ph) * 10 + t * 8) = true)
    by (apply (finite_of_bound _ big6); auto).
  assert (Aq : Z.abs (R64 (d * unit64) 50) <= fkey big).
  { apply R64_bound; [reflexivity|lia|].
    rewrite Z.abs_eq by nia. rewrite B5.
    apply Z.le_trans with (2 ^ 1000 * unit64); [|nia].
    apply Z.mul_le_mono_nonneg_r; lia. }
  destruct (int_truediv_defined d 50 ltac:(lia)) as [q Eq].
  { pose proof (key_bound prec emax prec_gt_1 prec_lt_emax (Prim2SF big)
                  (Prim2SF_valid big) Fbig) as B.
    fold (fkey big) in B. lia. }
  destruct (int_truediv_Some d 50 q ltac:(lia) Eq) as [Fq Kq].
  destruct (add_key _ _ F4 Fq) as [N5 K5].
  assert (A5 : Z.abs (fkey (abs (7 - ph) * 10 + t * 8 + q)) <= fkey big7).
  { rewrite K5. apply R64_bound; [reflexivity|lia|]. rewrite Kq. lia. }
  assert (F5 : finite (abs (7 - ph) * 10 + t * 8 + q) = true)
    by (apply (finite_of_bound _ big7); auto).
  (* the raw value *)
  destruct (sub_key 100 _ finite_const_100 F5) as [N6 K6].
  assert (A6 : Z.abs (fkey (100 - (abs (7 - ph) * 10 + t * 8 + q)))
               <= fkey big8).
  { rewrite K6. apply R64_bound; [reflexivity|lia|lia]. }
  assert (F6 : finite (100 - (abs (7 - ph) * 10 + t * 8 + q)) = true)
    by (apply (finite_of_bound _ big8); auto).
  unfold wqi, wqi_raw. rewrite Eq, (int_of_float_finite _ F6).
  eexists. split; [reflexivity|lia].
Qed.


(** C8: the index of (7, 0, 0) is 100; every index the code returns lies in
    0..100; and the code does return one for every reading whose pH is
    within [2^1000] of zero and whose turbidity and TDS are between 0 and
    [2^1000] (above about [1e307] the float arithmetic overflows to an
    infinity, on which [int] raises). *)
Theorem wqi_range :
  wqi 7 0 0 = Some 100 /\
  (forall ph t d n, wqi ph t d = Some n -> 0 <= n <= 100) /\
  (forall ph t d,
     (abs ph <=? big)%float = true ->
     (0 <=? t)%float = true -> (t <=? big)%float = true ->
     0 <= d <= 2 ^ 1000 ->
     exists n, wqi ph t d = Some n /\ 0 <= n <= 100).
Proof.
  split; [vm_compute; reflexivity|]. split.
  - intros ph t d n. unfold wqi.
    destruct (wqi_raw ph t d) as [raw|]; [|discriminate].
    destruct (int_of_float raw) as [k|]; [|discriminate].
    intros H. injection H as <-. lia.
  - apply wqi_defined.
Qed.

Lemma wqi_range_witness :
  0 <= 75 <= 100 /\ exists n, wqi f7_2 2 350 = Some n /\ 0 <= n <= 100.
Proof.
  split.
  - apply (proj1 (proj2 wqi_range) f7_2 2%float 350 75). reflexivity.
  - apply (proj2 (proj2 wqi_range) f7_2 2%float 350); try reflexivity.
    split; [lia|]. apply Z.leb_le. vm_compute. reflexivity.
Defined.

Lemma wqi_monotone_witness :
  ((2 <=? 3)%float = true /\ wqi 7 2 350 = Some 77 /\
   wqi 7 3 350 = Some 69 /\ 69 <= 77) /\
  (350 <= 400 /\ wqi 7 2 400 = Some 76 /\ 76 <= 77) /\
  ((abs (7 - 7) <=? abs (7 - 8))%float = true /\
   wqi 8 2 350 = Some 67 /\ 67 <= 77) /\
  (Z.abs (fkey 7 - fkey 7) <= Z.abs (fkey 7 - fkey 6) /\
   wqi 6 2 350 = Some 67 /\ 67 <= 77).
Proof.
  assert (H1 : (2 <=? 3)%float = true) by reflexivity.
  assert (H2 : wqi 7 2 350 = Some 77) by (vm_compute; reflexivity).
  assert (H3 : wqi 7 3 350 = Some 69) by (vm_compute; reflexivity).
  assert (H4 : 350 <= 400) by lia.
  assert (H5 : wqi 7 2 400 = Some 76) by (vm_compute; reflexivity).
  assert (H6 : (abs (7 - 7) <=? abs (7 - 8))%float = true) by reflexivity.
  assert (H7 : wqi 8 2 350 = Some 67) by (vm_compute; reflexivity).
  assert (H8 : Z.abs (fkey 7 - fkey 7) <= Z.abs (fkey 7 - fkey 6))
    by (apply Z.leb_le; vm_compute; reflexivity).
  assert (H9 : wqi 6 2 350 = Some 67) by (vm_compute; reflexivity).
  destruct wqi_monotone as (M1 & M2 & M3 & M4).
  exact (conj (conj H1 (conj H2 (conj H3
                 (M1 7%float 2%float 3%float 350 77 69 H1 H2 H3))))
         (conj (conj H4 (conj H5
                 (M2 7%float 2%float 350 400 77 76 H4 H2 H5)))
         (conj (conj H6 (conj H7
                 (M3 7%float 8%float 2%float 350 77 67 H6 H2 H7)))
               (conj H8 (conj H9
                 (M4 7%float 6%float 2%float 350 77 67 H8 H2 H9)))))).
Defined.

(** The first end-to-end reading, run from the empty state: the histories
    hold it, the status is Unsafe with index 0, and one alert is logged. *)
Lemma run_unsafe_reading (location now : string) :
  run initial_state (mkReading 4 9 1000) location now =
  (mkState [4%float] [9%float] [1000]
           [mkAlert now location 4 9 1000],
   Some ("Unsafe", 0)).
Proof. vm_compute. reflexivity. Qed.


(** ** History window *)

Lemma last_n_length {A : Type} (n : nat) (l : list A) :
  List.length (last_n n l) = Nat.min n (List.length l).
Proof. unfold last_n. rewrite length_skipn. lia. Qed.

Lemma last_n_suffix {A : Type} (n : nat) (l : list A) :
  firstn (List.length l - n) l ++ last_n n l = l.
Proof. unfold last_n. apply firstn_skipn. Qed.

Lemma last_n_short {A : Type} (n : nat) (l : list A) :
  (List.length l <= n)%nat -> last_n n l = l.
Proof.
  intros H. unfold last_n.
  replace (List.length l - n)%nat with 0%nat by lia. reflexivity.
Qed.

(** Truncating before an append loses nothing the later truncation keeps. *)
Lemma last_n_app_last_n {A : Type} (n : nat) (l l' : list A) :
  last_n n (last_n n l ++ l') = last_n n (l ++ l').
Proof.
  unfold last_n at 1 3. rewrite !skipn_app, !length_app, last_n_length.
  unfold last_n. rewrite skipn_skipn.
  f_equal; f_equal; lia.
Qed.

Lemma fold_append_reading (rs : list Reading) (st : SessionState) :
  let st' := fold_left append_reading rs st in
  last_n 10 (ph_history st') = last_n 10 (ph_history st ++ map ph rs) /\
  last_n 10 (turb_history st') =
    last_n 10 (turb_history st ++ map turbidity rs) /\
  last_n 10 (tds_history st') = last_n 10 (tds_history st ++ map tds rs) /\
  alert_log st' = alert_log st.
Proof.
  revert st. induction rs as [|r rs IH]; intros st; simpl.
  - rewrite !app_nil_r. auto.
  - destruct (IH (append_reading st r)) as (H1 & H2 & H3 & H4).
    simpl in H1, H2, H3, H4.
    rewrite H1, H2, H3, H4, !last_n_app_last_n, <- !app_assoc. auto.
Qed.

Lemma fold_append_reading_bounded (rs : list Reading) (st : SessionState) :
  (List.length (ph_history st) <= 10)%nat ->
  (List.length (turb_history st) <= 10)%nat ->
  (List.length (tds_history st) <= 10)%nat ->
  let st' := fold_left append_reading rs st in
  (List.length (ph_history st') <= 10)%nat /\
  (List.length (turb_history st') <= 10)%nat /\
  (List.length (tds_history st') <= 10)%nat.
Proof.
  revert st. induction rs as [|r rs IH]; intros st H1 H2 H3; simpl.
  - auto.
  - apply IH; simpl; rewrite last_n_length; lia.
Qed.

(** The histories after a session of readings [rs]: the last ten of each
    component, in the order of the readings. *)
Lemma session_histories (rs : list Reading) :
  let st := fold_left append_reading rs initial_state in
  ph_history st = last_n 10 (map ph rs) /\
  turb_history st = last_n 10 (map turbidity rs) /\
  tds_history st = last_n 10 (map tds rs).
Proof.
  destruct (fold_append_reading rs initial_state) as (H1 & H2 & H3 & _).
  destruct (fold_append_reading_bounded rs initial_state) as (B1 & B2 & B3);
    simpl; try lia.
  simpl in *. rewrite <- H1, <- H2, <- H3.
  rewrite !last_n_short by assumption. auto.
Qed.

Lemma last_n_keeps_last {A : Type} (n : nat) (l : list A) :
  keeps_last n l (last_n n l).
Proof.
  exists (firstn (List.length l - n) l). split.
  - symmetry. apply last_n_suffix.
  - apply last_n_length.
Qed.

(** C4: a stored reading goes to the end of each history, which is then cut
    to its last ten elements; fifteen readings stored from the empty state
    leave three histories of length 10 holding the components of readings 6
    to 15 in order. *)
Theorem history_keeps_last_ten :
  (forall st r,
     keeps_last 10 (ph_history st ++ [ph r])
                (ph_history (append_reading st r)) /\
     keeps_last 10 (turb_history st ++ [turbidity r])
                (turb_history (append_reading st r)) /\
     keeps_last 10 (tds_history st ++ [tds r])
                (tds_history (append_reading st r))) /\
  (forall rs, List.length rs = 15%nat ->
     let st := fold_left append_reading rs initial_state in
     ph_history st = map ph (skipn 5 rs) /\
     turb_history st = map turbidity (skipn 5 rs) /\
     tds_history st = map tds (skipn 5 rs) /\
     List.length (ph_history st) = 10%nat /\
     List.length (turb_history st) = 10%nat /\
     List.length (tds_history st) = 10%nat).
Proof.
  split.
  - intros st r. simpl. repeat split; apply last_n_keeps_last.
  - intros rs Hlen.
    destruct (session_histories rs) as (H1 & H2 & H3). simpl in *.
    rewrite H1, H2, H3. unfold last_n.
    rewrite !length_map, Hlen. simpl Nat.sub.
    rewrite !skipn_map, !length_map, !length_skipn, Hlen. repeat split; reflexivity.
Qed.

Lemma history_keeps_last_ten_witness :
  tds_history (fold_left append_reading sample_readings initial_state) =
  [6; 7; 8; 9; 10; 11; 12; 13; 14; 15].
Proof.
  exact (proj1 (proj2 (proj2
           (proj2 history_keeps_last_ten sample_readings eq_refl)))).
Defined.

(** ** Alert log *)

(** C3: an Unsafe status appends exactly one record, built from the given
    time, location and reading, at the end of the log; a Safe or Moderate
    status leaves the log as it is; three Unsafe calls in a row append three
    records in call order, equal ones included. *)
Theorem alert_log_appends (log : list AlertRecord) (r1 r2 r3 : Reading)
    (l1 l2 l3 t1 t2 t3 : string) :
  maybe_log_alert log "Unsafe" r1 l1 t1 =
    log ++ [mkAlert t1 l1 (ph r1) (turbidity r1) (tds r1)] /\
  maybe_log_alert log "Safe" r1 l1 t1 = log /\
  maybe_log_alert log "Moderate" r1 l1 t1 = log /\
  maybe_log_alert
    (maybe_log_alert (maybe_log_alert log "Unsafe" r1 l1 t1)
                     "Unsafe" r2 l2 t2)
    "Unsafe" r3 l3 t3 =
    log ++ [mkAlert t1 l1 (ph r1) (turbidity r1) (tds r1);
            mkAlert t2 l2 (ph r2) (turbidity r2) (tds r2);
            mkAlert t3 l3 (ph r3) (turbidity r3) (tds r3)].
Proof.
  unfold maybe_log_alert. simpl. rewrite <- !app_assoc. simpl. auto.
Qed.

(** ** Strict order through keys *)

Section KeyOrder.

Variables prec emax : Z.
Hypothesis Hprec : 1 < prec.
Hypothesis Hemax : prec < emax.

Lemma SFltb_key (x y : spec_float) :
  SpecFloat.valid_binary prec emax x = true -> is_fin x = true ->
  SpecFloat.valid_binary prec emax y = true -> is_fin y = true ->
  SFltb x y = true -> key prec emax x < key prec emax y.
Proof.
  intros Vx Fx Vy Fy.
  destruct x as [sx|sx| |sx mx ex]; try discriminate;
    destruct y as [sy|sy| |sy my ey]; try discriminate.
  - pose proof (key_finite_bound prec emax Hprec Hemax sy my ey Vy).
    unfold SFltb, SFcompare, key. destruct sy; cbn [cond_Zopp];
      [discriminate|lia].
  - pose proof (key_finite_bound prec emax Hprec Hemax sx mx ex Vx).
    unfold SFltb, SFcompare, key. destruct sx; cbn [cond_Zopp];
      [lia|discriminate].
  - pose proof (key_finite_bound prec emax Hprec Hemax sx mx ex Vx) as Bx.
    pose proof (key_finite_bound prec emax Hprec Hemax sy my ey Vy) as By.
    pose proof (key_lex prec emax Hprec sx sy mx my ex ey Vx Vy) as Lxy.
    pose proof (key_lex prec emax Hprec sy sx my mx ey ex Vy Vx) as Lyx.
    destruct (valid_finite_inv prec emax Hprec sy my ey Vy) as (Hey & _).
    unfold SFltb, SFcompare, key.
    change (Pos.compare_cont Eq mx my) with (Pos.compare mx my).
    set (kx := Z.pos mx * 2 ^ (ex - SpecFloat.emin prec emax)) in *.
    set (ky := Z.pos my * 2 ^ (ey - SpecFloat.emin prec emax)) in *.
    assert (P : 0 < 2 ^ (ey - SpecFloat.emin prec emax))
      by (apply Z.pow_pos_nonneg; lia).
    assert (Heq : ex = ey -> (mx < my)%positive -> kx < ky).
    { intros -> Hm. unfold kx, ky. apply Z.mul_lt_mono_pos_r; lia. }
    assert (Heq' : ex = ey -> (my < mx)%positive -> ky < kx).
    { intros -> Hm. unfold kx, ky. apply Z.mul_lt_mono_pos_r; lia. }
    destruct sx, sy; cbn [cond_Zopp]; try discriminate; try lia;
      destruct (Z.compare_spec ex ey); try discriminate; try lia;
      destruct (Pos.compare_spec mx my); simpl; try discriminate;
      intros _; try lia.
Qed.

End KeyOrder.

Lemma SFltb_false_leb (x y : spec_float) :
  x <> S754_nan -> y <> S754_nan -> SFltb x y = false -> SFleb y x = true.
Proof. destruct x, y; intros Hx Hy Hxy; try congruence; sf_order. Qed.

Lemma finite_Prim2SF (x : float) : finite x = true -> Prim2SF x <> S754_nan.
Proof. unfold finite. intros H E. rewrite E in H. discriminate. Qed.

Lemma ltb_key (x y : float) :
  finite x = true -> finite y = true ->
  (x <? y)%float = true -> fkey x < fkey y.
Proof.
  intros Fx Fy. rewrite ltb_spec.
  apply (SFltb_key prec emax prec_gt_1 prec_lt_emax);
    auto using Prim2SF_valid.
Qed.

(** On finite floats the comparisons are the comparisons of the keys. *)
Lemma leb_iff_key (x y : float) :
  finite x = true -> finite y = true ->
  (x <=? y)%float = (fkey x <=? fkey y).
Proof.
  intros Fx Fy. destruct (Z.leb_spec (fkey x) (fkey y)) as [H|H].
  - destruct (x <=? y)%float eqn:E; [reflexivity|].
    rewrite leb_spec in E.
    apply SFleb_false_ltb in E; try (apply finite_Prim2SF; assumption).
    rewrite <- ltb_spec in E. apply ltb_key in E; auto. lia.
  - destruct (x <=? y)%float eqn:E; [|reflexivity].
    apply leb_key in E; auto. lia.
Qed.

Lemma ltb_iff_key (x y : float) :
  finite x = true -> finite y = true ->
  (x <? y)%float = (fkey x <? fkey y).
Proof.
  intros Fx Fy. destruct (Z.ltb_spec (fkey x) (fkey y)) as [H|H].
  - destruct (x <? y)%float eqn:E; [reflexivity|].
    rewrite ltb_spec in E.
    apply SFltb_false_leb in E; try (apply finite_Prim2SF; assumption).
    rewrite <- leb_spec in E. apply leb_key in E; auto. lia.
  - destruct (x <? y)%float eqn:E; [|reflexivity].
    apply ltb_key in E; auto. lia.
Qed.

(** ** Rounding to two decimals *)

Lemma rne_nonneg (a b : Z) : 0 <= a -> 0 < b -> 0 <= rne a b.
Proof. intros Ha Hb. apply (rne_ge_int a b 0); lia. Qed.

Lemma rnez_mono (a1 a2 b : Z) : 0 < b -> a1 <= a2 -> rnez a1 b <= rnez a2 b.
Proof.
  intros Hb H. unfold rnez.
  destruct (Z.ltb_spec a1 0), (Z.ltb_spec a2 0); try lia.
  - apply Z.opp_le_mono. rewrite !Z.opp_involutive.
    apply rne_mono; try lia. apply Z.mul_le_mono_nonneg_r; lia.
  - pose proof (rne_nonneg (- a1) b). pose proof (rne_nonneg a2 b). lia.
  - apply rne_mono; try lia. apply Z.mul_le_mono_nonneg_r; lia.
Qed.

Lemma round2_key_mono (k1 k2 : Z) :
  k1 <= k2 -> round2_key k1 <= round2_key k2.
Proof.
  intros H. unfold round2_key. pose proof unit64_pos.
  apply R64_mono; try lia.
  apply Z.mul_le_mono_nonneg_r; [lia|].
  apply Z.mul_le_mono_nonneg_r; [lia|].
  apply rnez_mono; lia.
Qed.

Lemma Z2SF_100 : Z2SF 100 = S754_finite false 100 0.
Proof. reflexivity. Qed.

(** [round(x, 2)] returns the float whose key is [round2_key] of the key of
    [x]. *)
Lemma py_round2_key (x : float) :
  finite x = true ->
  Prim2SF (py_round2 x) <> S754_nan /\
  fkey (py_round2 x) = round2_key (fkey x).
Proof.
  unfold finite, fkey, py_round2. pose proof unit64_pos as HU.
  destruct (Prim2SF x) as [s|s| |s m e] eqn:E; try discriminate; intros _.
  - rewrite E. split; [discriminate|].
    unfold key, round2_key, rnez. simpl (0 * 100 <? 0).
    cbv iota. change (0 * 100) with 0.
    pose proof (rne_exact 0 unit64 HU) as R0. change (0 * unit64) with 0 in R0.
    rewrite R0. unfold R64, rnkz. change (0 * unit64) with 0.
    simpl (0 <? 0). cbv iota. symmetry.
    apply (rnk_0 prec emax prec_gt_1 prec_lt_emax). lia.
  - cbv zeta. unfold key at 2.
    pose proof (Prim2SF_valid x) as V. rewrite E in V.
    pose proof (key_finite_bound prec emax prec_gt_1 prec_lt_emax s m e V)
      as HM.
    set (M := Z.pos m * 2 ^ (e - SpecFloat.emin prec emax)) in *.
    pose proof (rne_nonneg (M * 100) unit64 ltac:(lia) HU) as Hn.
    assert (EK : round2_key (cond_Zopp s M) =
                 cond_Zopp s (rnk prec emax (rne (M * 100) unit64 * unit64)
                                  100)).
    { unfold round2_key, rnez, R64, rnkz. destruct s; cbn [cond_Zopp].
      - destruct (Z.ltb_spec (- M * 100) 0); [|lia].
        replace (- (- M * 100)) with (M * 100) by lia.
        destruct (Z.ltb_spec (- rne (M * 100) unit64 * unit64) 0) as [L|L].
        + f_equal. f_equal. lia.
        + assert (rne (M * 100) unit64 = 0) as -> by nia.
          simpl (- 0 * unit64). simpl (0 * unit64).
          rewrite (rnk_0 prec emax prec_gt_1 prec_lt_emax) by lia.
          reflexivity.
      - destruct (Z.ltb_spec (M * 100) 0); [lia|].
        destruct (Z.ltb_spec (rne (M * 100) unit64 * unit64) 0); [nia|].
        reflexivity. }
    rewrite EK. rewrite Z2SF_100.
    destruct (rne (M * 100) unit64) as [|p|p] eqn:En; [| |lia].
    + change (SFdiv prec emax (S754_zero s) (S754_finite false 100 0))
        with (S754_zero (xorb s false)).
      rewrite Prim2SF_SF2Prim by reflexivity.
      split; [discriminate|]. unfold key. simpl (0 * unit64).
      rewrite (rnk_0 prec emax prec_gt_1 prec_lt_emax) by lia.
      destruct s; reflexivity.
    + pose proof (SFdiv_pos_key prec emax prec_gt_1 prec_lt_emax
                    (xorb s false) p 100) as H.
      unfold SFdiv.
      destruct (SFdiv_core_binary prec emax (Z.pos p) 0 (Z.pos 100) 0)
        as [[q e'] l].
      cbv zeta in H. destruct H as (H1 & H2 & H3).
      rewrite Prim2SF_SF2Prim by exact H1.
      split; [exact H2|]. rewrite H3. rewrite xorb_false_r. reflexivity.
Qed.

(** [round(x, 2)] on examples: 9.999 gives 10.0, 2.675 (below the decimal
    2.675 as a float) gives 2.67, the ties 0.125 and 0.375 go to the even
    neighbours 0.12 and 0.38, and -0.001 gives -0.0. *)
Lemma py_round2_examples :
  py_round2 0x1.3ff7ced916873p+3 = 10%float /\
  py_round2 0x1.5666666666666p+1 = 0x1.55c28f5c28f5cp+1%float /\
  py_round2 0.125 = 0x1.eb851eb851eb8p-4%float /\
  py_round2 0.375 = 0x1.851eb851eb852p-2%float /\
  Prim2SF (py_round2 (-0x1.0624dd2f1a9fcp-10)) = S754_zero true /\
  py_round2 f7_2 = f7_2.
Proof. repeat split; vm_compute; reflexivity. Qed.

(** ** Uniform draws *)

Lemma fkey_1 : fkey 1 = unit64.
Proof. vm_compute. reflexivity. Qed.

Lemma fkey_0 : fkey 0 = 0.
Proof. reflexivity. Qed.

Lemma unit_draw_key (u : float) :
  unit_draw u -> finite u = true /\ 0 <= fkey u < unit64.
Proof.
  intros [H0 H1].
  assert (Fu : finite u = true).
  { apply (finite_between 0 u 1); try reflexivity; [exact H0|].
    rewrite leb_spec. rewrite ltb_spec in H1.
    unfold SFltb in H1. unfold SFleb.
    destruct (SFcompare (Prim2SF u) (Prim2SF 1)) as [[| |]|];
      try discriminate; reflexivity. }
  split; [exact Fu|]. rewrite <- fkey_0, <- fkey_1. split.
  - apply leb_key; auto.
  - apply ltb_key; auto.
Qed.

(** [uniform(a, b)] lies between [a] and the float sum [a + (b - a)]. *)
Lemma py_uniform_range (a b u : float) :
  finite a = true -> finite b = true ->
  finite (b - a) = true -> finite (a + (b - a)) = true ->
  0 <= fkey (b - a) -> unit_draw u ->
  finite (py_uniform a b u) = true /\
  fkey a <= fkey (py_uniform a b u) <= fkey (a + (b - a)).
Proof.
  intros Fa Fb Fc Fs Hc Hu. unfold py_uniform.
  destruct (unit_draw_key u Hu) as [Fu Ku]. pose proof unit64_pos as HU.
  destruct (mul_key (b - a) u Fc Fu) as [N1 K1].
  assert (B1 : 0 <= fkey ((b - a) * u) <= fkey (b - a)).
  { rewrite K1. split.
    - replace 0 with (R64 (0 * unit64) unit64).
      + apply R64_mono; try lia; nia.
      + rewrite R64_scale by lia. apply (R64_fix 0). reflexivity.
    - rewrite <- (R64_fix (b - a) Fc) at 2.
      rewrite <- (R64_scale (fkey (b - a)) unit64 HU).
      apply R64_mono; try lia. apply Z.mul_le_mono_nonneg_r; [lia|].
      apply Z.mul_le_mono_nonneg_l; lia. }
  assert (F1 : finite ((b - a) * u) = true).
  { apply (finite_of_bound _ (b - a)); auto. lia. }
  destruct (add_key a _ Fa F1) as [N2 K2].
  destruct (add_key a _ Fa Fc) as [_ K3].
  assert (B2 : fkey a <= fkey (a + (b - a) * u) <= fkey (a + (b - a))).
  { rewrite K2, K3. split.
    - rewrite <- (R64_fix a Fa) at 1. apply R64_mono; lia.
    - apply R64_mono; lia. }
  split; [|exact B2].
  pose proof (key_bound prec emax prec_gt_1 prec_lt_emax (Prim2SF a)
                (Prim2SF_valid a) Fa) as Ba.
  pose proof (key_bound prec emax prec_gt_1 prec_lt_emax
                (Prim2SF (a + (b - a))) (Prim2SF_valid _) Fs) as Bs.
  fold (fkey a) in Ba. fold (fkey (a + (b - a))) in Bs.
  apply finite_of_key; [exact N2|lia].
Qed.

(** A rounded uniform draw stays between the rounded ends. *)
Lemma round2_uniform_range (a b u : float) :
  finite a = true -> finite b = true ->
  finite (b - a) = true -> finite (a + (b - a)) = true ->
  finite (py_round2 a) = true ->
  finite (py_round2 (a + (b - a))) = true ->
  0 <= fkey (b - a) -> unit_draw u ->
  finite (py_round2 (py_uniform a b u)) = true /\
  fkey (py_round2 a) <= fkey (py_round2 (py_uniform a b u))
    <= fkey (py_round2 (a + (b - a))).
Proof.
  intros Fa Fb Fc Fs Fra Frs Hc Hu.
  destruct (py_uniform_range a b u Fa Fb Fc Fs Hc Hu) as [F B].
  destruct (py_round2_key _ F) as [N K].
  destruct (py_round2_key _ Fs) as [_ Ks].
  destruct (py_round2_key _ Fa) as [_ Ka].
  assert (R : fkey (py_round2 a) <= fkey (py_round2 (py_uniform a b u))
              <= fkey (py_round2 (a + (b - a)))).
  { rewrite K, Ka, Ks. split; apply round2_key_mono; lia. }
  split; [|exact R].
  pose proof (key_bound prec emax prec_gt_1 prec_lt_emax _
                (Prim2SF_valid _) Fra) as Ba.
  pose proof (key_bound prec emax prec_gt_1 prec_lt_emax _
                (Prim2SF_valid _) Frs) as Bs.
  fold (fkey (py_round2 a)) in Ba.
  fold (fkey (py_round2 (a + (b - a)))) in Bs.
  apply finite_of_key; [exact N|lia].
Qed.

(** ** The index on several penalties at once *)

Lemma abs7_key (ph : float) :
  finite ph = true -> finite (7 - ph) = true ->
  fkey (abs (7 - ph)) = R64 (Z.abs (fkey 7 - fkey ph)) 1.
Proof. intros Fp F. exact (proj2 (abs_sub_key ph Fp) F). Qed.

(** Two readings, the second one with the larger penalties: its index is
    the smaller one. *)
Lemma wqi_joint_key (ph1 ph2 t1 t2 : float) (d1 d2 n1 n2 : Z) :
  Z.abs (fkey 7 - fkey ph1) <= Z.abs (fkey 7 - fkey ph2) ->
  fkey t1 <= fkey t2 -> d1 <= d2 ->
  wqi ph1 t1 d1 = Some n1 -> wqi ph2 t2 d2 = Some n2 -> n2 <= n1.
Proof.
  intros Hp Ht Hd H1 H2.
  destruct (wqi_finite_ph _ _ _ _ H1) as [P1 Q1].
  destruct (wqi_finite_ph _ _ _ _ H2) as [P2 Q2].
  destruct (wqi_Some_key _ _ _ _ H1) as (_ & _ & ->).
  destruct (wqi_Some_key _ _ _ _ H2) as (_ & _ & ->).
  apply clamp_quot_mono, raw_key_anti; try lia.
  rewrite (abs7_key ph1 P1 Q1), (abs7_key ph2 P2 Q2).
  apply R64_mono; lia.
Qed.

(** The index is returned when the keys of the inputs are bounded. *)
Lemma wqi_defined_key (ph t : float) (d : Z) :
  finite ph = true -> finite t = true ->
  Z.abs (fkey ph) <= fkey big -> 0 <= fkey t <= fkey big ->
  0 <= d <= 2 ^ 1000 ->
  exists n, wqi ph t d = Some n /\ 0 <= n <= 100.
Proof.
  intros Fp Ft Kp Kt Hd.
  assert (Fbig : finite big = true) by reflexivity.
  destruct (abs_key ph Fp) as [Fa Ka].
  apply wqi_defined; try assumption.
  - rewrite leb_iff_key by assumption. apply Z.leb_le. lia.
  - rewrite leb_iff_key by (auto; reflexivity). apply Z.leb_le.
    rewrite fkey_0. lia.
  - rewrite leb_iff_key by assumption. apply Z.leb_le. lia.
Qed.

(** ** The sensor values of the three modes *)

Lemma round2_consts :
  py_round2 3 = 3%float /\ py_round2 (3 + (5 - 3)) = 5%float /\
  py_round2 7 = 7%float /\ py_round2 (7 + (10 - 7)) = 10%float /\
  py_round2 6.5 = 6.5%float /\ py_round2 (6.5 + (f8_8 - 6.5)) = f8_8 /\
  py_round2 0 = 0%float /\ py_round2 (0 + (6 - 0)) = 6%float.
Proof. repeat split; vm_compute; reflexivity. Qed.

Lemma key_consts :
  0 <= fkey (5 - 3) /\ 0 <= fkey (10 - 7) /\ 0 <= fkey (f8_8 - 6.5) /\
  0 <= fkey (6 - 0) /\
  0 <= fkey 3 /\ fkey 3 <= fkey 5 /\ fkey 5 < fkey 7 /\ fkey 7 <= fkey 10 /\
  fkey 10 <= fkey 14 /\ fkey 14 <= fkey big /\
  0 <= fkey 6.5 /\ fkey 6.5 <= fkey 7 /\ fkey 7 <= fkey f8_8 /\
  fkey f8_8 <= fkey 14 /\ fkey 6 <= fkey 10 /\ fkey 5 < fkey 6 /\
  fkey 7 - fkey 6.5 <= fkey f8_8 - fkey 7 /\
  fkey 3 < fkey 5 /\ fkey 6.5 <= fkey 8.5 /\ fkey 8.5 <= fkey f8_8 /\
  fkey 7 - fkey 6.5 <= fkey 8.5 - fkey 7 /\ fkey 7 <= fkey 8.5.
Proof.
  repeat split; try (apply Zle_by_leb; vm_compute; reflexivity);
    vm_compute; reflexivity.
Qed.

Lemma spike_keys (d : Draws) :
  spike_draws d ->
  let p := py_round2 (py_uniform 3 5 (draw_ph d)) in
  let t := py_round2 (py_uniform 7 10 (draw_turbidity d)) in
  finite p = true /\ fkey 3 <= fkey p <= fkey 5 /\
  finite t = true /\ fkey 7 <= fkey t <= fkey 10.
Proof.
  intros (Hp & Ht & _). cbv zeta.
  destruct round2_consts as (R1 & R2 & R3 & R4 & _).
  destruct key_consts as (C1 & C2 & _).
  destruct (round2_uniform_range 3 5 (draw_ph d)) as [F1 B1];
    try reflexivity; try assumption.
  destruct (round2_uniform_range 7 10 (draw_turbidity d)) as [F2 B2];
    try reflexivity; try assumption.
  rewrite R1, R2 in B1. rewrite R3, R4 in B2. auto.
Qed.

Lemma normal_keys (d : Draws) :
  normal_draws d ->
  let p := py_round2 (py_uniform 6.5 f8_8 (draw_ph d)) in
  let t := py_round2 (py_uniform 0 6 (draw_turbidity d)) in
  finite p = true /\ fkey 6.5 <= fkey p <= fkey f8_8 /\
  finite t = true /\ fkey 0 <= fkey t <= fkey 6.
Proof.
  intros (Hp & Ht & _). cbv zeta.
  destruct round2_consts as (_ & _ & _ & _ & R1 & R2 & R3 & R4).
  destruct key_consts as (_ & _ & C1 & C2 & _).
  destruct (round2_uniform_range 6.5 f8_8 (draw_ph d)) as [F1 B1];
    try reflexivity; try assumption.
  destruct (round2_uniform_range 0 6 (draw_turbidity d)) as [F2 B2];
    try reflexivity; try assumption.
  rewrite R1, R2 in B1. rewrite R3, R4 in B2. auto.
Qed.

Lemma slider_keys (c : Controls) :
  slider_ok c ->
  finite (slider_ph c) = true /\ fkey 0 <= fkey (slider_ph c) <= fkey 14 /\
  finite (slider_turbidity c) = true /\
  fkey 0 <= fkey (slider_turbidity c) <= fkey 10.
Proof.
  intros (P0 & P1 & T0 & T1 & _).
  assert (Fp : finite (slider_ph c) = true)
    by (apply (finite_between 0 _ 14); auto).
  assert (Ft : finite (slider_turbidity c) = true)
    by (apply (finite_between 0 _ 10); auto).
  repeat split; auto; apply leb_key; auto.
Qed.

(** Whatever the mode, the reading is one the sliders could give. *)
Lemma reading_keys (c : Controls) (d : Draws) :
  inputs_ok c d ->
  let r := sensor_values c d in
  finite (ph r) = true /\ 0 <= fkey (ph r) <= fkey 14 /\
  finite (turbidity r) = true /\ 0 <= fkey (turbidity r) <= fkey 10 /\
  0 <= tds r <= 1200.
Proof.
  unfold inputs_ok, sensor_values.
  destruct key_consts as (_ & _ & _ & _ & K3 & K35 & K57 & K710 & K1014 &
                          _ & K65 & K657 & K788 & K8814 & K610 & _).
  pose proof fkey_0 as K0.
  destruct (demo_mode c).
  - intros H. destruct (slider_keys c H) as (F1 & B1 & F2 & B2).
    destruct H as (_ & _ & _ & _ & Hd). simpl. repeat split; auto; lia.
  - destruct (simulate_spike c).
    + intros H. destruct (spike_keys d H) as (F1 & B1 & F2 & B2).
      destruct H as (_ & _ & Hd). simpl. repeat split; auto; lia.
    + intros H. destruct (normal_keys d H) as (F1 & B1 & F2 & B2).
      destruct H as (_ & _ & Hd). simpl. repeat split; auto; lia.
Qed.

Lemma reading_defined (c : Controls) (d : Draws) :
  inputs_ok c d ->
  let r := sensor_values c d in
  exists n, wqi (ph r) (turbidity r) (tds r) = Some n /\ 0 <= n <= 100.
Proof.
  intros H. cbv zeta.
  destruct (reading_keys c d H) as (F1 & B1 & F2 & B2 & Hd).
  destruct key_consts as (_ & _ & _ & _ & _ & _ & _ & _ & K1014 & K14b & _).
  apply wqi_defined_key; auto; lia.
Qed.

(** ** One run of the script *)

Lemma alert_tab_snoc (log : list AlertRecord) (a : AlertRecord) :
  alert_tab (log ++ [a]) = AlertTable (log ++ [a]).
Proof. destruct log; reflexivity. Qed.

Lemma classify_three (p t : float) (d : Z) :
  classify p t d = "Safe" \/ classify p t d = "Moderate" \/
  classify p t d = "Unsafe".
Proof.
  unfold classify. destruct (_ && _); auto. destruct (_ && _); auto.
Qed.

(** X1: in every mode, with slider values inside the slider bounds and
    draws the random module can return, the run draws its page: [int] does
    not raise, the index given to the progress bar is within 0..100, the
    status is one of the three tiers, and the reading is within the slider
    bounds (pH 0..14, turbidity 0..10, TDS 0..1200). *)
Theorem script_draws_page (ss : option SessionState) (c : Controls)
    (d : Draws) (location now : string) :
  inputs_ok c d ->
  exists page,
    snd (script ss c d location now) = Some page /\
    page_reading page = sensor_values c d /\
    0 <= page_wqi page <= 100 /\
    page_card page = status_card (page_status page) /\
    (page_status page = "Safe" \/ page_status page = "Moderate" \/
     page_status page = "Unsafe") /\
    (0 <=? ph (page_reading page))%float = true /\
    (ph (page_reading page) <=? 14)%float = true /\
    (0 <=? turbidity (page_reading page))%float = true /\
    (turbidity (page_reading page) <=? 10)%float = true /\
    0 <= tds (page_reading page) <= 1200.
Proof.
  intros H.
  destruct (reading_defined c d H) as (n & Hn & Bn).
  destruct (reading_keys c d H) as (F1 & B1 & F2 & B2 & Hd).
  unfold script, run. cbv zeta. rewrite Hn.
  eexists. split; [reflexivity|]. cbn [page_reading page_wqi page_card
                                       page_status].
  repeat split; try lia; try apply classify_three.
  - rewrite leb_iff_key by (auto; reflexivity). apply Z.leb_le.
    rewrite fkey_0. lia.
  - rewrite leb_iff_key by (auto; reflexivity). apply Z.leb_le. lia.
  - rewrite leb_iff_key by (auto; reflexivity). apply Z.leb_le.
    rewrite fkey_0. lia.
  - rewrite leb_iff_key by (auto; reflexivity). apply Z.leb_le. lia.
Qed.

Lemma unit_draw_half : unit_draw 0.5.
Proof. split; reflexivity. Qed.

Lemma script_draws_page_witness :
  exists page,
    snd (script None (mkControls false true 7 2 350)
                (mkDraws 0.5 0.5 1000) "Indore City" "10:00:00") = Some page
    /\ 0 <= page_wqi page <= 100.
Proof.
  assert (Hin : inputs_ok (mkControls false true 7 2 350)
                          (mkDraws 0.5 0.5 1000)).
  { split; [exact unit_draw_half|].
    split; [exact unit_draw_half|]. simpl. lia. }
  destruct (script_draws_page None (mkControls false true 7 2 350)
              (mkDraws 0.5 0.5 1000) "Indore City" "10:00:00" Hin)
    as (page & H1 & _ & H3 & _).
  exists page. split; assumption.
Defined.

Lemma corner_indices :
  wqi 5 7 900 = Some 6 /\ wqi f8_8 6 700 = Some 20 /\
  wqi 7 0 100 = Some 98 /\ wqi 8.5 3 600 = Some 49 /\
  wqi 7 5 0 = Some 60 /\ wqi 7 0 901 = Some 81.
Proof. repeat split; vm_compute; reflexivity. Qed.

(** X2: the contamination button (outside the demo mode) always gives an
    Unsafe reading: pH within 3..5, turbidity within 7..10, TDS within
    900..1200, an index of at most 6, the red card, and one more record at
    the end of the alert log, which the alert tab shows. *)
Theorem spike_is_logged (ss : option SessionState) (c : Controls)
    (d : Draws) (location now : string) :
  demo_mode c = false -> simulate_spike c = true -> spike_draws d ->
  let r := sensor_values c d in
  let old := alert_log (match ss with Some st => st | None => initial_state
                        end) in
  let log := old ++ [mkAlert now location (ph r) (turbidity r) (tds r)] in
  (3 <=? ph r)%float = true /\ (ph r <=? 5)%float = true /\
  (7 <=? turbidity r)%float = true /\ (turbidity r <=? 10)%float = true /\
  900 <= tds r <= 1200 /\
  exists n, 0 <= n <= 6 /\
    snd (script ss c d location now) =
      Some (mkPage r "Unsafe" n
              ("#f8d7da", "Do NOT consume. Inform authorities.")
              (AlertTable log)) /\
    alert_log (fst (script ss c d location now)) = log.
Proof.
  intros Hdemo Hspike Hd. cbv zeta.
  assert (Hin : inputs_ok c d)
    by (unfold inputs_ok; rewrite Hdemo, Hspike; exact Hd).
  destruct (reading_defined c d Hin) as (n & Hn & Bn).
  destruct (spike_keys d Hd) as (F1 & B1 & F2 & B2).
  destruct Hd as (_ & _ & Htds).
  destruct key_consts as (_ & _ & _ & _ & K3 & K35 & K57 & K710 & _).
  destruct corner_indices as (W & _).
  revert Hn. unfold script, run. cbv zeta.
  unfold sensor_values. rewrite Hdemo, Hspike.
  cbn [ph turbidity tds].
  set (p := py_round2 (py_uniform 3 5 (draw_ph d))) in *.
  set (t := py_round2 (py_uniform 7 10 (draw_turbidity d))) in *.
  intros Hn. rewrite Hn.
  assert (Ht5 : (5 <? t)%float = true).
  { rewrite ltb_iff_key by (auto; reflexivity). apply Z.ltb_lt. lia. }
  rewrite (above_bands_unsafe p t (draw_tds d) (or_introl Ht5)).
  assert (Hn6 : n <= 6).
  { apply (wqi_joint_key 5 p 7 t 900 (draw_tds d) 6 n); auto; lia. }
  repeat split; try lia;
    try (rewrite leb_iff_key by (auto; reflexivity); apply Z.leb_le; lia).
  exists n. split; [lia|].
  cbn [fst snd alert_log]. unfold maybe_log_alert. simpl String.eqb.
  cbv iota. cbn [ph turbidity tds]. rewrite alert_tab_snoc.
  split; reflexivity.
Qed.

Lemma spike_is_logged_witness :
  exists n, 0 <= n <= 6 /\
    alert_log (fst (script None (mkControls false true 7 2 350)
                           (mkDraws 0.5 0.5 1000) "Indore City"
                           "10:00:00")) =
    [mkAlert "10:00:00" "Indore City" 4 8.5 1000].
Proof.
  assert (Hd : spike_draws (mkDraws 0.5 0.5 1000)).
  { split; [exact unit_draw_half|].
    split; [exact unit_draw_half|]. simpl. lia. }
  destruct (spike_is_logged None (mkControls false true 7 2 350)
              (mkDraws 0.5 0.5 1000) "Indore City" "10:00:00"
              eq_refl eq_refl Hd)
    as (_ & _ & _ & _ & _ & n & Hn & _ & Hlog).
  exists n. split; [exact Hn|]. rewrite Hlog. vm_compute. reflexivity.
Defined.

(** X3: without the button and outside the demo mode the reading has a pH
    within 6.5..8.8, a turbidity within 0..6 and a TDS within 100..700; its
    index is within 20..98; and it is Unsafe exactly when the turbidity is
    above 5, never because of the TDS or the pH. *)
Theorem normal_reading (c : Controls) (d : Draws) :
  demo_mode c = false -> simulate_spike c = false -> normal_draws d ->
  let r := sensor_values c d in
  (6.5 <=? ph r)%float = true /\ (ph r <=? f8_8)%float = true /\
  (0 <=? turbidity r)%float = true /\ (turbidity r <=? 6)%float = true /\
  100 <= tds r <= 700 /\
  (exists n, wqi (ph r) (turbidity r) (tds r) = Some n /\ 20 <= n <= 98) /\
  (classify (ph r) (turbidity r) (tds r) = "Unsafe" <->
   (5 <? turbidity r)%float = true).
Proof.
  intros Hdemo Hspike Hd. cbv zeta.
  assert (Hin : inputs_ok c d)
    by (unfold inputs_ok; rewrite Hdemo, Hspike; exact Hd).
  destruct (reading_defined c d Hin) as (n & Hn & Bn).
  destruct (normal_keys d Hd) as (F1 & B1 & F2 & B2).
  destruct Hd as (_ & _ & Htds).
  destruct key_consts as (_ & _ & _ & _ & _ & _ & _ & _ & _ & _ &
                          K65 & K657 & K788 & _ & _ & _ & Kd & _).
  destruct corner_indices as (_ & W20 & W98 & _).
  pose proof fkey_0 as K0.
  revert Hn. unfold sensor_values. rewrite Hdemo, Hspike.
  cbn [ph turbidity tds].
  set (p := py_round2 (py_uniform 6.5 f8_8 (draw_ph d))) in *.
  set (t := py_round2 (py_uniform 0 6 (draw_turbidity d))) in *.
  intros Hn.
  repeat split; try lia;
    try (rewrite leb_iff_key by (auto; reflexivity); apply Z.leb_le; lia).
  - exists n. split; [exact Hn|]. split.
    + apply (wqi_joint_key p f8_8 t 6 (draw_tds d) 700 n 20); auto; lia.
    + apply (wqi_joint_key 7 p 0 t 100 (draw_tds d) 98 n); auto; lia.
  - intros HU. destruct (classify_cases p t (draw_tds d)) as (_ & _ & HB).
    apply HB in HU. destruct HU as [_ HM].
    rewrite moderate_band_iff in HM.
    destruct (t <=? 5)%float eqn:E.
    + exfalso. apply HM. simpl. apply Z.leb_le. lia.
    + rewrite leb_iff_key in E by (auto; reflexivity).
      rewrite ltb_iff_key by (auto; reflexivity).
      apply Z.leb_gt in E. apply Z.ltb_lt. lia.
  - intros H5. apply above_bands_unsafe. left. exact H5.
Qed.

Lemma normal_reading_witness :
  exists n, wqi (ph (sensor_values (mkControls false false 7 2 350)
                                   (mkDraws 0.5 0.5 400)))
                (turbidity (sensor_values (mkControls false false 7 2 350)
                                          (mkDraws 0.5 0.5 400))) 400
            = Some n /\ 20 <= n <= 98.
Proof.
  assert (Hd : normal_draws (mkDraws 0.5 0.5 400)).
  { split; [exact unit_draw_half|].
    split; [exact unit_draw_half|]. simpl. lia. }
  destruct (normal_reading (mkControls false false 7 2 350)
              (mkDraws 0.5 0.5 400) eq_refl eq_refl Hd)
    as (_ & _ & _ & _ & _ & H & _).
  exact H.
Defined.

(** The bounds of the normal mode are attained: the largest draws give the
    reading (8.8, 6.0, 700) with the index 20, and a reading (7.0, 0.0, 100)
    has the index 98. *)
Lemma normal_bounds_attained :
  sensor_values (mkControls false false 7 2 350)
                (mkDraws 0x1.fffffffffffffp-1 0x1.fffffffffffffp-1 700) =
    mkReading f8_8 6 700 /\
  wqi f8_8 6 700 = Some 20 /\
  sensor_values (mkControls false false 7 2 350)
                (mkDraws 0x1.bd3c36113404fp-3 0 100) =
    mkReading 7 0 100 /\
  wqi 7 0 100 = Some 98.
Proof. repeat split; vm_compute; reflexivity. Qed.

(** X4: the status and the index agree: a Safe reading has an index of at
    least 49, and an Unsafe reading with a turbidity and a TDS that are not
    negative has an index of at most 81. *)
Theorem status_bounds_index (p t : float) (d n : Z) :
  wqi p t d = Some n ->
  (classify p t d = "Safe" -> 49 <= n) /\
  (classify p t d = "Unsafe" -> (0 <=? t)%float = true -> 0 <= d ->
   n <= 81).
Proof.
  intros Hn.
  destruct (wqi_finite_ph _ _ _ _ Hn) as [Fp _].
  destruct (wqi_Some_key _ _ _ _ Hn) as (Ft & _ & _).
  destruct corner_indices as (_ & _ & _ & W49 & W60 & W81).
  destruct key_consts as (_ & _ & _ & _ & _ & _ & _ & _ & _ & _ &
                          _ & _ & _ & _ & _ & _ & _ & _ & K1 & _ & K2 & K3).
  pose proof fkey_0 as K0.
  destruct (classify_cases p t d) as (HS & _ & HU).
  split.
  - intros H. apply HS in H. destruct H as (P1 & P2 & T3 & D6).
    apply leb_key in P1; auto. apply leb_key in P2; auto.
    apply ltb_key in T3; auto.
    apply (wqi_joint_key p 8.5 t 3 d 600 n 49); auto; lia.
  - intros H T0 D0. apply HU in H. destruct H as [_ HM].
    rewrite moderate_band_iff in HM.
    apply leb_key in T0; auto.
    destruct (t <=? 5)%float eqn:E.
    + assert (900 < d).
      { destruct (Z.leb_spec d 900) as [L|L]; [|exact L].
        exfalso. apply HM. reflexivity. }
      apply (wqi_joint_key 7 p 0 t 901 d 81 n); auto; lia.
    + rewrite leb_iff_key in E by (auto; reflexivity).
      apply Z.leb_gt in E.
      assert (n <= 60); [|lia].
      apply (wqi_joint_key 7 p 5 t 0 d 60 n); auto; lia.
Qed.

Lemma status_bounds_index_witness :
  (wqi f7_2 2 350 = Some 75 /\ classify f7_2 2 350 = "Safe" /\ 49 <= 75) /\
  (wqi 7 9 0 = Some 28 /\ classify 7 9 0 = "Unsafe" /\ 28 <= 81).
Proof.
  assert (W1 : wqi f7_2 2 350 = Some 75) by (vm_compute; reflexivity).
  assert (C1 : classify f7_2 2 350 = "Safe") by (vm_compute; reflexivity).
  assert (W2 : wqi 7 9 0 = Some 28) by (vm_compute; reflexivity).
  assert (C2 : classify 7 9 0 = "Unsafe") by (vm_compute; reflexivity).
  split.
  - split; [exact W1|]. split; [exact C1|].
    exact (proj1 (status_bounds_index f7_2 2 350 75 W1) C1).
  - split; [exact W2|]. split; [exact C2|].
    apply (proj2 (status_bounds_index 7 9 0 28 W2) C2); [reflexivity|lia].
Defined.

(** X5: the index is antitone in the three penalties together: of two
    readings, the one that is farther from pH 7, more turbid and higher in
    TDS has the index that is not larger. *)
Theorem wqi_antitone (p1 p2 t1 t2 : float) (d1 d2 n1 n2 : Z) :
  (abs (7 - p1) <=? abs (7 - p2))%float = true ->
  (t1 <=? t2)%float = true -> d1 <= d2 ->
  wqi p1 t1 d1 = Some n1 -> wqi p2 t2 d2 = Some n2 -> n2 <= n1.
Proof.
  intros Hp Ht Hd H1 H2.
  destruct (wqi_Some_key _ _ _ _ H1) as (F1 & A1 & ->).
  destruct (wqi_Some_key _ _ _ _ H2) as (F2 & A2 & ->).
  apply clamp_quot_mono, raw_key_anti; try lia; apply leb_key; assumption.
Qed.

Lemma wqi_antitone_witness :
  wqi f7_2 2 350 = Some 75 /\ wqi 4 9 1000 = Some 0 /\ 0 <= 75.
Proof.
  assert (W1 : wqi f7_2 2 350 = Some 75) by (vm_compute; reflexivity).
  assert (W2 : wqi 4 9 1000 = Some 0) by (vm_compute; reflexivity).
  split; [exact W1|]. split; [exact W2|].
  apply (wqi_antitone f7_2 4 2 9 350 1000 75 0);
    [reflexivity|reflexivity|lia|exact W1|exact W2].
Defined.

(** ** A session of runs *)

Lemma run_alert_log (st : SessionState) (r : Reading)
    (location now : string) :
  alert_log (fst (run st r location now)) =
  alert_log st ++ (if logged (r, location, now)
                   then [alert_of (r, location, now)] else []).
Proof.
  unfold run, logged, alert_of. cbn [fst snd].
  destruct (wqi (ph r) (turbidity r) (tds r)); cbn [fst alert_log].
  - unfold maybe_log_alert. rewrite andb_true_r.
    destruct (String.eqb _ "Unsafe"); [reflexivity|].
    rewrite app_nil_r. reflexivity.
  - rewrite andb_false_r, app_nil_r. reflexivity.
Qed.

Lemma session_alert_log (runs : list (Reading * string * string))
    (st : SessionState) :
  alert_log (session st runs) =
  alert_log st ++ map alert_of (filter logged runs).
Proof.
  revert st. induction runs as [|[[r l] n] runs IH]; intros st.
  - simpl. rewrite app_nil_r. reflexivity.
  - unfold session in *. cbn [fold_left fst snd]. rewrite IH.
    rewrite run_alert_log. cbn [filter].
    destruct (logged (r, l, n)); cbn [map].
    + rewrite <- app_assoc. reflexivity.
    + rewrite app_nil_r. reflexivity.
Qed.

(** X6: after any sequence of runs the alert log is the log of before
    followed by one record for each run that was Unsafe and reached the
    alert tab, in the order of the runs: nothing is removed, changed,
    reordered or merged, and a run that is not Unsafe adds nothing. *)
Theorem alert_log_of_session (runs : list (Reading * string * string))
    (st : SessionState) :
  alert_log (session st runs) =
    alert_log st ++ map alert_of (filter logged runs) /\
  (List.length (alert_log st) <= List.length (alert_log (session st runs))
     <= List.length (alert_log st) + List.length runs)%nat /\
  firstn (List.length (alert_log st)) (alert_log (session st runs)) =
    alert_log st.
Proof.
  rewrite session_alert_log. split; [reflexivity|].
  rewrite length_app, length_map.
  pose proof (filter_length_le logged runs).
  split; [lia|].
  rewrite firstn_app, Nat.sub_diag, firstn_all. simpl.
  apply app_nil_r.
Qed.


Lemma run_histories (st : SessionState) (r : Reading)
    (location now : string) :
  ph_history (fst (run st r location now)) =
    ph_history (append_reading st r) /\
  turb_history (fst (run st r location now)) =
    turb_history (append_reading st r) /\
  tds_history (fst (run st r location now)) =
    tds_history (append_reading st r).
Proof.
  unfold run. destruct (wqi _ _ _); auto.
Qed.

Lemma last_n_map {A B : Type} (f : A -> B) (n : nat) (l : list A) :
  last_n n (map f l) = map f (last_n n l).
Proof. unfold last_n. rewrite skipn_map, length_map. reflexivity. Qed.

Lemma session_append (runs : list (Reading * string * string))
    (st st' : SessionState) :
  ph_history st = ph_history st' -> turb_history st = turb_history st' ->
  tds_history st = tds_history st' ->
  let s1 := session st runs in
  let s2 := fold_left append_reading (map (fun i => fst (fst i)) runs) st' in
  ph_history s1 = ph_history s2 /\ turb_history s1 = turb_history s2 /\
  tds_history s1 = tds_history s2.
Proof.
  revert st st'. induction runs as [|[[r l] n] runs IH];
    intros st st' H1 H2 H3; cbv zeta.
  - auto.
  - unfold session. cbn [fold_left map fst snd].
    apply IH.
    + rewrite (proj1 (run_histories st r l n)). simpl. rewrite H1.
      reflexivity.
    + rewrite (proj1 (proj2 (run_histories st r l n))). simpl. rewrite H2.
      reflexivity.
    + rewrite (proj2 (proj2 (run_histories st r l n))). simpl. rewrite H3.
      reflexivity.
Qed.

(** X8: after any number of runs of a session the three histories are the
    pH, the turbidity and the TDS of the same readings, the last ten (all of
    them when there were fewer), oldest first, whatever the status of the
    runs and whether or not [int] raised in one. *)
Theorem histories_of_session (runs : list (Reading * string * string)) :
  let st := session initial_state runs in
  let window := last_n 10 (map (fun i => fst (fst i)) runs) in
  ph_history st = map ph window /\
  turb_history st = map turbidity window /\
  tds_history st = map tds window /\
  List.length window = Nat.min 10 (List.length runs).
Proof.
  cbv zeta.
  destruct (session_append runs initial_state initial_state
              eq_refl eq_refl eq_refl) as (H1 & H2 & H3).
  destruct (session_histories (map (fun i => fst (fst i)) runs))
    as (S1 & S2 & S3).
  cbv zeta in H1, H2, H3, S1, S2, S3.
  rewrite H1, H2, H3, S1, S2, S3.
  rewrite last_n_length, length_map.
  repeat split; apply last_n_map.
Qed.

(** X9: the status card follows the bands: green with "Safe for drinking"
    exactly in the Safe band, yellow with "Boil water" exactly in the
    Moderate band outside it, red with "Do NOT consume" exactly outside both
    bands. *)
Theorem status_card_bands (p t : float) (d : Z) :
  (status_card (classify p t d) =
     ("#d4edda", "Safe for drinking and domestic use.") <->
   safe_band p t d) /\
  (status_card (classify p t d) =
     ("#fff3cd", "Boil water before drinking.") <->
   ~ safe_band p t d /\ moderate_band t d) /\
  (status_card (classify p t d) =
     ("#f8d7da", "Do NOT consume. Inform authorities.") <->
   ~ safe_band p t d /\ ~ moderate_band t d).
Proof.
  destruct (classify_cases p t d) as (HS & HM & HU).
  split; [|split]; [rewrite <- HS|rewrite <- HM|rewrite <- HU];
    destruct (classify_three p t d) as [E|[E|E]]; rewrite E;
    split; intros H; try discriminate H; reflexivity.
Qed.

(** ** The tier never improves with the penalties *)

Lemma SFleb_ltb_trans (x y z : spec_float) :
  SFleb x y = true -> SFltb y z = true -> SFltb x z = true.
Proof. destruct x, y, z; intros Hxy Hyz; sf_order. Qed.

Lemma SFleb_trans (x y z : spec_float) :
  SFleb x y = true -> SFleb y z = true -> SFleb x z = true.
Proof. destruct x, y, z; intros Hxy Hyz; sf_order. Qed.

Lemma leb_ltb_trans (x y z : float) :
  (x <=? y)%float = true -> (y <? z)%float = true -> (x <? z)%float = true.
Proof. rewrite !ltb_spec, leb_spec. apply SFleb_ltb_trans. Qed.

Lemma leb_trans (x y z : float) :
  (x <=? y)%float = true -> (y <=? z)%float = true ->
  (x <=? z)%float = true.
Proof. rewrite !leb_spec. apply SFleb_trans. Qed.

(** X10: at the same pH, a reading that is at least as turbid and at least
    as high in TDS is never in a better tier. *)
Theorem classify_monotone (p t1 t2 : float) (d1 d2 : Z) :
  (t1 <=? t2)%float = true -> d1 <= d2 ->
  (tier_rank (classify p t1 d1) <= tier_rank (classify p t2 d2))%nat.
Proof.
  intros Ht Hd.
  destruct (classify_cases p t2 d2) as (HS2 & HM2 & _).
  destruct (classify_three p t2 d2) as [E|[E|E]]; rewrite E.
  - apply HS2 in E. destruct E as (P1 & P2 & T & D).
    assert (S1 : classify p t1 d1 = "Safe").
    { apply (proj1 (classify_cases p t1 d1)). repeat split; auto.
      - apply leb_ltb_trans with t2; assumption.
      - lia. }
    rewrite S1. apply Nat.le_refl.
  - apply HM2 in E. destruct E as (_ & T & D).
    assert (M1 : moderate_band t1 d1).
    { split; [apply leb_trans with t2; assumption|lia]. }
    destruct (classify_three p t1 d1) as [E1|[E1|E1]].
    + rewrite E1. vm_compute. lia.
    + rewrite E1. vm_compute. lia.
    + apply (proj2 (proj2 (classify_cases p t1 d1))) in E1.
      destruct E1 as [_ N]. contradiction.
  - destruct (classify_three p t1 d1) as [E1|[E1|E1]]; rewrite E1;
      vm_compute; lia.
Qed.

Lemma classify_monotone_witness :
  (tier_rank (classify 7 2 350) <= tier_rank (classify 7 4 700))%nat.
Proof.
  apply (classify_monotone 7 2 4 350 700); [reflexivity|lia].
Defined.
